(** * UrbitIrcBridge: reconnect strategy, channel tracker and relay

    A shallow embedding of [irc_bot.py] and [irc_bridge.py].

    Python objects that are mutated in place become explicit state; a
    method that can raise becomes a computation in a state monad whose
    result is either a value or the exception raised.  A raise keeps the
    state as it was at the raise, the way a Python exception leaves every
    mutation made before it in place. *)

From Stdlib Require Import ZArith QArith String Ascii List Lia.
From stdpp Require Import gmap strings list fin_maps.

Local Open Scope string_scope.
Local Open Scope Z_scope.

(** ** Exceptions and the state monad *)

Inductive exn : Type :=
  | KeyError (key : string)
  | AttributeError (what : string)
  | AssertionError
  | IndexError
  | UnicodeDecodeError
  | ircBotException (msg : string).

Inductive Result (A : Type) : Type :=
  | Ok (a : A)
  | Raise (e : exn).
Arguments Ok {A} a.
Arguments Raise {A} e.

Definition is_ok {A} (r : Result A) : bool :=
  match r with Ok _ => true | Raise _ => false end.

Definition is_raise {A} (r : Result A) : bool := negb (is_ok r).

(** [M S A]: a computation over a mutable state [S]. *)
Definition M (S A : Type) : Type := S -> Result A * S.

Definition ret {S A} (a : A) : M S A := fun s => (Ok a, s).

Definition raise {S A} (e : exn) : M S A := fun s => (Raise e, s).

Definition bind {S A B} (m : M S A) (k : A -> M S B) : M S B :=
  fun s => match m s with
           | (Ok a, s') => k a s'
           | (Raise e, s') => (Raise e, s')
           end.

Definition get {S} : M S S := fun s => (Ok s, s).
Definition put {S} (s : S) : M S unit := fun _ => (Ok tt, s).
Definition modify {S} (f : S -> S) : M S unit := fun s => (Ok tt, f s).

(** [try m handles h]: Python's [try: m except E: h], for the exceptions
    [E] selected by [handles]. *)
Definition try_except {S A} (m : M S A) (handles : exn -> bool) (h : M S A)
  : M S A :=
  fun s => match m s with
           | (Ok a, s') => (Ok a, s')
           | (Raise e, s') => if handles e then h s' else (Raise e, s')
           end.

(** Run a computation on part of a larger state. *)
Definition zoom {S T A} (proj : S -> T) (upd : T -> S -> S) (m : M T A)
  : M S A :=
  fun s => let (r, t') := m (proj s) in (r, upd t' s).

Declare Scope py_scope.
Delimit Scope py_scope with py.
Notation "x <- m ;; k" := (bind m (fun x => k))
  (at level 100, m at next level, right associativity) : py_scope.
Notation "m ;; k" := (bind m (fun _ => k))
  (at level 100, right associativity) : py_scope.
Local Open Scope py_scope.

(** [for x in xs: body x] *)
Fixpoint for_each {S A} (xs : list A) (body : A -> M S unit) : M S unit :=
  match xs with
  | [] => ret tt
  | x :: rest => (body x ;; for_each rest body)
  end.

(** ** Numbers

    [random.random()] yields a number in the half-open unit interval; a
    draw is modelled as a rational [j], and the product [intvl * j] is
    taken exactly.  [int(...)] truncates toward zero. *)

Definition py_int (q : Q) : Z := Z.quot (Qnum q) (Zpos (Qden q)).

Definition unit_draw (j : Q) : Prop := (0 <= j)%Q /\ (j < 1)%Q.

(** ** ExponentialBackoff *)

Module ExponentialBackoff.

(** [attempt_count] is [itertools.count(1)]: the field holds the value
    the next call of [next] returns. *)
Record t : Type := mk {
  min_interval : Z;
  max_interval : Z;
  _check_scheduled : bool;
  attempt_count : Z
}.

(** The reactor's scheduler, as far as the strategy uses it: the delays
    passed to [execute_after] together with [self.check], newest
    first. *)
Record Scheduler : Type := { execute_after_log : list Z }.

Definition state : Type := (t * Scheduler)%type.

Definition default_min_interval : Z := 3.
Definition default_max_interval : Z := 5.
Definition ceiling : Z := 5.

(** [__init__] with keyword attributes, for the two the class reads. *)
Definition init (min_attr max_attr : option Z) : Result t :=
  let mn := default default_min_interval min_attr in
  let mx := default default_max_interval max_attr in
  if (0 <=? mn) && (mn <=? mx)
  then Ok {| min_interval := mn; max_interval := mx;
             _check_scheduled := false; attempt_count := 1 |}
  else Raise AssertionError.

(** A strategy constructed with the class defaults. *)
Definition fresh : t :=
  {| min_interval := default_min_interval;
     max_interval := default_max_interval;
     _check_scheduled := false; attempt_count := 1 |}.

Definition no_timers : Scheduler := {| execute_after_log := [] |}.

Definition get_self : M state t := fun s => (Ok (fst s), s).

(** [next(self.attempt_count)] *)
Definition next_attempt : M state Z :=
  fun '(self, sch) =>
    (Ok (attempt_count self),
     ({| min_interval := min_interval self;
         max_interval := max_interval self;
         _check_scheduled := _check_scheduled self;
         attempt_count := attempt_count self + 1 |}, sch)).

Definition set_check_scheduled (b : bool) : M state unit :=
  fun '(self, sch) =>
    (Ok tt,
     ({| min_interval := min_interval self;
         max_interval := max_interval self;
         _check_scheduled := b;
         attempt_count := attempt_count self |}, sch)).

Definition execute_after (intvl : Z) : M state unit :=
  fun '(self, sch) =>
    (Ok tt, (self, {| execute_after_log := intvl :: execute_after_log sch |})).

(** Lines 45 to 54 of [run]: the interval computed from the value [n]
    drawn from the counter and the jitter draw [j]. *)
Definition interval (self : t) (n : Z) (j : Q) : Z :=
  let intvl := 2 ^ n - 1 in
  let intvl := Z.min intvl (max_interval self) in
  let intvl := py_int (inject_Z intvl * j) in
  let intvl := Z.max intvl (min_interval self) in
  intvl.

(** [run(self, bot)], with [j] the value [random.random()] returns if
    it is called. *)
Definition run (j : Q) : M state unit :=
  n <- next_attempt ;;
  if n >? ceiling then raise (ircBotException "Failed to reconnect to server.")
  else
    self <- get_self ;;
    if _check_scheduled self then ret tt
    else
      n' <- next_attempt ;;
      execute_after (interval self n' j) ;;
      set_check_scheduled true.

(** [check(self)] on a connection that [is_connected()] reports as
    [connected].  [jump_server] is the bot's; it is passed in. *)
Definition check (connected : bool) (j : Q) (jump_server : M state unit)
  : M state unit :=
  set_check_scheduled false ;;
  if connected then ret tt
  else (run j ;; jump_server).

End ExponentialBackoff.

(** ** Strings *)

(** The part of [s] before the first occurrence of [c]: the first
    component of [s.partition(c)], which is also [s.split(c)[0]]. *)
Fixpoint str_before (c : ascii) (s : string) : string :=
  match s with
  | EmptyString => EmptyString
  | String a rest =>
      if Ascii.eqb a c then EmptyString else String a (str_before c rest)
  end.

(** [NickMask.nick] *)
Definition nick_of (mask : string) : string := str_before "!"%char mask.

(** Modelled from the spec: the key folding of the IRC library's
    dictionaries ([irc.strings], not among the sources); names are
    compared "per protocol rules".  Under RFC 1459 that is ASCII upper
    case to lower case and the four characters [[]\^] to [{}|~]: the
    codes 65 to 94, each moved up by 32. *)
Definition irc_lower_char (a : ascii) : ascii :=
  let n := N_of_ascii a in
  if ((65 <=? n) && (n <=? 94))%N then ascii_of_N (n + 32) else a.

Fixpoint irc_lower (s : string) : string :=
  match s with
  | EmptyString => EmptyString
  | String a rest => String (irc_lower_char a) (irc_lower rest)
  end.

(** ** IRCDict *)

(** Modelled from the spec: the class [IRCDict] that [irc_bot.py]
    imports from [irc.dict]; its code is not among the sources.  It is a
    Python dictionary whose string keys are compared after [irc_lower]:
    a [gmap] over the folded keys, every access folding its key, a
    missing key raising [KeyError] where a Python dictionary does. *)

Module IRCDict.
Section ops.
Context {V : Type}.

Definition transform_key (k : string) : string := irc_lower k.

(** [k in d] *)
Definition contains (d : gmap string V) (k : string) : bool :=
  bool_decide (is_Some (d !! transform_key k)).

(** [d[k]] *)
Definition getitem (d : gmap string V) (k : string) : Result V :=
  match d !! transform_key k with
  | Some v => Ok v
  | None => Raise (KeyError k)
  end.

(** [d[k] = v] *)
Definition setitem (d : gmap string V) (k : string) (v : V)
  : gmap string V :=
  <[transform_key k := v]> d.

(** [del d[k]] *)
Definition delitem (d : gmap string V) (k : string)
  : Result (gmap string V) :=
  match d !! transform_key k with
  | Some _ => Ok (delete (transform_key k) d)
  | None => Raise (KeyError k)
  end.

(** [d.pop(k)]: the value and the dictionary without the key. *)
Definition pop (d : gmap string V) (k : string)
  : Result (V * gmap string V) :=
  match d !! transform_key k with
  | Some v => Ok (v, delete (transform_key k) d)
  | None => Raise (KeyError k)
  end.

(** [d.pop(k, None)], value dropped. *)
Definition pop_default (d : gmap string V) (k : string) : gmap string V :=
  delete (transform_key k) d.

(** [d.keys()] *)
Definition keys (d : gmap string V) : list string := (map_to_list d).*1.

End ops.
End IRCDict.

(** ** Channel *)

(** Modelled from the spec: the class [Channel] that [irc_bot.py]
    imports from [irc.bot]; its code is not among the sources.  A
    channel has a set of member nicknames, role flags per member, and
    channel modes with optional arguments.  Adding a user puts the nick
    in the member set; removing a user takes the nick out of the member
    set and drops its role flags; a change of nick renames the member
    and keeps its role flags. *)

Module Channel.

(** The members are the keys of [_users] (each with its details, the
    constant 1 unless set); [mode_users] maps a role flag to the
    dictionary of the nicks that hold it; [modes] holds the channel
    modes with their argument. *)
Record t : Type := mk {
  _users : gmap string Z;
  mode_users : gmap string (gmap string Z);
  modes : gmap string (option string)
}.

(** [Channel()] *)
Definition new : t := {| _users := ∅; mode_users := ∅; modes := ∅ |}.

Definition users (ch : t) : list string := IRCDict.keys (_users ch).

Definition has_user (ch : t) (nick : string) : bool :=
  IRCDict.contains (_users ch) nick.

(** [nick in self.mode_users[mode]], without creating the entry. *)
Definition has_mode (ch : t) (mode nick : string) : bool :=
  match mode_users ch !! mode with
  | Some d => IRCDict.contains d nick
  | None => false
  end.

Definition add_user (nick : string) (ch : t) : t :=
  {| _users := IRCDict.setitem (_users ch) nick 1;
     mode_users := mode_users ch;
     modes := modes ch |}.

(** [for d in self.user_dicts: d.pop(nick, None)] *)
Definition remove_user (nick : string) (ch : t) : t :=
  {| _users := IRCDict.pop_default (_users ch) nick;
     mode_users := (fun d => IRCDict.pop_default d nick) <$> mode_users ch;
     modes := modes ch |}.

(** One round of the loop of [change_nick] over a mode dictionary. *)
Definition rename_in (before after : string) (d : gmap string Z)
  : gmap string Z :=
  match IRCDict.pop d before with
  | Ok (v, d') => IRCDict.setitem d' after v
  | Raise _ => d
  end.

(** [change_nick]: [self._users.pop(before)] raises on a missing nick,
    before anything is changed. *)
Definition change_nick (before after : string) (ch : t) : Result t :=
  match IRCDict.pop (_users ch) before with
  | Raise e => Raise e
  | Ok (v, d') =>
      Ok {| _users := IRCDict.setitem d' after v;
            mode_users := rename_in before after <$> mode_users ch;
            modes := modes ch |}
  end.

End Channel.

(** ** Events and the connection *)

(** [irc.client.Event] *)
Record Event : Type := {
  type : string;
  source : string;
  target : string;
  arguments : list string
}.

Record ServerConnection : Type := { real_nickname : string }.

Definition get_nickname (c : ServerConnection) : string := real_nickname c.

(** [l[i]] on a Python list, for [i] not negative. *)
Definition list_getitem {S A} (l : list A) (i : nat) : M S A :=
  match l !! i with
  | Some x => ret x
  | None => raise IndexError
  end.

(** [for v in d.values(): body(v)], where [body] mutates the object [v]
    in place or raises.  The rounds run until the first raise; the
    objects changed before it stay changed. *)
Definition for_values {V} (body : V -> Result V) (d : gmap string V)
  : Result unit * gmap string V :=
  map_fold
    (fun k v acc =>
       match acc with
       | (Ok _, d') =>
           match body v with
           | Ok v' => (Ok tt, <[k := v']> d')
           | Raise e => (Raise e, d')
           end
       | (Raise e, d') => (Raise e, d')
       end)
    (Ok tt, d) d.

(** The object [v] after a round of such a loop: what [body] made of it,
    or [v] itself when [body] raised at once. *)
Definition outcome {V} (body : V -> Result V) (v : V) : V :=
  match body v with Ok v' => v' | Raise _ => v end.

(** ** SingleServerIRCBot *)

Module SingleServerIRCBot.

Record t : Type := mk {
  channels : gmap string Channel.t;
  recon : ExponentialBackoff.t;
  scheduler : ExponentialBackoff.Scheduler
}.

(** The bot after [__init__], with the default strategy. *)
Definition new : t :=
  {| channels := ∅;
     recon := ExponentialBackoff.fresh;
     scheduler := ExponentialBackoff.no_timers |}.

Definition set_channels (d : gmap string Channel.t) (self : t) : t :=
  {| channels := d; recon := recon self; scheduler := scheduler self |}.

Definition set_recon (rs : ExponentialBackoff.state) (self : t) : t :=
  {| channels := channels self; recon := fst rs; scheduler := snd rs |}.

(** [self.channels[ch]] *)
Definition channels_getitem (ch : string) : M t Channel.t :=
  fun self => (IRCDict.getitem (channels self) ch, self).

(** [self.channels[ch] = v] *)
Definition channels_setitem (ch : string) (v : Channel.t) : M t unit :=
  modify (fun self => set_channels (IRCDict.setitem (channels self) ch v) self).

(** [del self.channels[ch]] *)
Definition channels_delitem (ch : string) : M t unit :=
  fun self =>
    match IRCDict.delitem (channels self) ch with
    | Ok d => (Ok tt, set_channels d self)
    | Raise e => (Raise e, self)
    end.

(** [self.channels[ch].method(...)] for a method that mutates the
    channel object in place: the object stays where it is stored. *)
Definition channels_call (ch : string) (method : Channel.t -> Channel.t)
  : M t unit :=
  c <- channels_getitem ch ;;
  channels_setitem ch (method c).

(** [self.recon.run(self)] *)
Definition recon_run (j : Q) : M t unit :=
  zoom (fun self => (recon self, scheduler self)) set_recon
       (ExponentialBackoff.run j).

Definition _on_disconnect (j : Q) (connection : ServerConnection)
    (event : Event) : M t unit :=
  modify (set_channels ∅) ;;
  recon_run j.

Definition _on_join (connection : ServerConnection) (event : Event)
  : M t unit :=
  let ch := target event in
  let nick := nick_of (source event) in
  (if String.eqb nick (get_nickname connection)
   then channels_setitem ch Channel.new
   else ret tt) ;;
  channels_call ch (Channel.add_user nick).

Definition _on_kick (connection : ServerConnection) (event : Event)
  : M t unit :=
  nick <- list_getitem (arguments event) 0 ;;
  let channel := target event in
  if String.eqb nick (get_nickname connection)
  then channels_delitem channel
  else channels_call channel (Channel.remove_user nick).

Definition _on_nick (connection : ServerConnection) (event : Event)
  : M t unit :=
  let before := nick_of (source event) in
  let after := target event in
  fun self =>
    let (r, d) :=
      for_values
        (fun ch => if Channel.has_user ch before
                   then Channel.change_nick before after ch
                   else Ok ch)
        (channels self) in
    (r, set_channels d self).

Definition _on_part (connection : ServerConnection) (event : Event)
  : M t unit :=
  let nick := nick_of (source event) in
  let channel := target event in
  if String.eqb nick (get_nickname connection)
  then channels_delitem channel
  else channels_call channel (Channel.remove_user nick).

Definition _on_quit (connection : ServerConnection) (event : Event)
  : M t unit :=
  let nick := nick_of (source event) in
  fun self =>
    let (r, d) :=
      for_values
        (fun ch => if Channel.has_user ch nick
                   then Ok (Channel.remove_user nick ch)
                   else Ok ch)
        (channels self) in
    (r, set_channels d self).

(** The handlers [__init__] registers, by event type.  The handlers of
    [mode] and [namreply] parse mode strings and prefix tables of the
    IRC library and are not part of this development. *)
Definition handler (j : Q) (ty : string)
  : option (ServerConnection -> Event -> M t unit) :=
  if String.eqb ty "disconnect" then Some (_on_disconnect j)
  else if String.eqb ty "join" then Some _on_join
  else if String.eqb ty "kick" then Some _on_kick
  else if String.eqb ty "nick" then Some _on_nick
  else if String.eqb ty "part" then Some _on_part
  else if String.eqb ty "quit" then Some _on_quit
  else None.

(** The five kinds of membership event. *)
Definition membership_event (event : Event) : bool :=
  bool_decide (type event ∈ ["join"; "part"; "kick"; "quit"; "nick"]).

(** One event delivered to the bot.  An event of a type that has no
    handler here leaves the bot as it is. *)
Definition handle_event (j : Q) (connection : ServerConnection)
    (event : Event) : M t unit :=
  match handler j (type event) with
  | Some h => h connection event
  | None => ret tt
  end.

(** The states a bot goes through on a stream of membership events,
    each delivered with the connection as it is then.  A handler that
    raises ends the stream, as it ends the bot's process. *)
Fixpoint trace (evs : list (ServerConnection * Event)) (self : t)
  : list t :=
  match evs with
  | [] => [self]
  | (c, e) :: rest =>
      self ::
      match handle_event 0 c e self with
      | (Ok _, self') => trace rest self'
      | (Raise _, self') => [self']
      end
  end.

End SingleServerIRCBot.

(** ** The Urbit side: [urbit_client] *)

Module urbit_client.

(** A [quinnat.Quinnat] session, named by the order of its creation. *)
Record Quinnat : Type := { session : nat }.

(** The client object together with the part of the outside world it
    acts on.  [client] is the attribute [self.client], [None] being
    Python's [None].  [created] counts the sessions opened so far,
    [deleted] lists the sessions whose ship was deleted, [posted] the
    messages [post_message] has delivered (oldest first), and
    [post_calls] counts the calls of [post_message].  [decode_fails n]
    tells whether call number [n] of [post_message] raises
    [UnicodeDecodeError]. *)
Record t : Type := mk {
  client : option Quinnat;
  created : nat;
  deleted : list nat;
  posted : list (string * string * string);
  post_calls : nat;
  decode_fails : nat -> bool
}.

Definition set_client (c : option Quinnat) (self : t) : t :=
  {| client := c; created := created self; deleted := deleted self;
     posted := posted self; post_calls := post_calls self;
     decode_fails := decode_fails self |}.

(** [connect]: opens a session, stores it in [self.client], and returns
    nothing, that is [None]. *)
Definition connect : M t (option Quinnat) :=
  fun self =>
    (Ok None,
     {| client := Some {| session := created self |};
        created := S (created self);
        deleted := deleted self; posted := posted self;
        post_calls := post_calls self;
        decode_fails := decode_fails self |}).

(** [urbit_client(instance)] on a world in which nothing has happened
    yet. *)
Definition new (fails : nat -> bool) : t :=
  snd (connect {| client := None; created := 0; deleted := [];
                  posted := []; post_calls := 0;
                  decode_fails := fails |}).

(** [self.client.post_message(resource_ship, channel, {"text": message})] *)
Definition client_post_message (resource_ship channel message : string)
  : M t unit :=
  fun self =>
    match client self with
    | None => (Raise (AttributeError "post_message"), self)
    | Some _ =>
        let n := post_calls self in
        if decode_fails self n
        then (Raise UnicodeDecodeError,
              {| client := client self; created := created self;
                 deleted := deleted self; posted := posted self;
                 post_calls := S n; decode_fails := decode_fails self |})
        else (Ok tt,
              {| client := client self; created := created self;
                 deleted := deleted self;
                 posted := posted self ++ [(resource_ship, channel, message)];
                 post_calls := S n; decode_fails := decode_fails self |})
    end.

(** [self.client.ship.delete()] *)
Definition client_ship_delete : M t unit :=
  fun self =>
    match client self with
    | None => (Raise (AttributeError "ship"), self)
    | Some q =>
        (Ok tt,
         {| client := client self; created := created self;
            deleted := session q :: deleted self; posted := posted self;
            post_calls := post_calls self;
            decode_fails := decode_fails self |})
    end.

(** [reconnect]: [self.client = self.connect()] stores what [connect]
    returns. *)
Definition reconnect : M t unit :=
  client_ship_delete ;;
  r <- connect ;;
  modify (set_client r).

Definition is_UnicodeDecodeError (e : exn) : bool :=
  match e with UnicodeDecodeError => true | _ => false end.

Definition send_message (resource_ship channel message : string)
  : M t unit :=
  try_except (client_post_message resource_ship channel message)
             is_UnicodeDecodeError
             reconnect.

(** The client after [post_message] has delivered the messages [ms],
    one call each. *)
Definition delivered (self : t) (ms : list (string * string * string))
  : t :=
  {| client := client self; created := created self;
     deleted := deleted self; posted := posted self ++ ms;
     post_calls := post_calls self + length ms;
     decode_fails := decode_fails self |}.

End urbit_client.

(** ** Channel pairings and the two relay directions *)

(** One entry of [instance["channels"]]. *)
Record Pairing : Type := {
  irc_channel : string;
  resource_ship : string;
  urbit_channel : string
}.

Module BridgeIrcBot.

(** The bridge bot: its pairings, the queue it drains, the Urbit client
    it sends with, and the [privmsg] calls made on its IRC connection
    (oldest first). *)
Record t : Type := mk {
  instance_channels : list Pairing;
  message_queue : list (string * string);
  urbit : urbit_client.t;
  privmsg_log : list (string * string)
}.

Definition set_urbit (u : urbit_client.t) (self : t) : t :=
  {| instance_channels := instance_channels self;
     message_queue := message_queue self;
     urbit := u; privmsg_log := privmsg_log self |}.

(** The pairings [filter] keeps in [on_pubmsg]. *)
Definition matching (self : t) (e : Event) : list Pairing :=
  filter (fun chan => irc_channel chan = target e) (instance_channels self).

(** The text relayed for a public message. *)
Definition relay_text (nick text : string) : string :=
  nick ++ ": " ++ text.

Definition on_pubmsg (c : ServerConnection) (e : Event) : M t unit :=
  self <- get ;;
  let urbit_channels := matching self e in
  if (0 <? length urbit_channels)%nat
  then
    for_each urbit_channels (fun chan =>
      text <- list_getitem (arguments e) 0 ;;
      zoom urbit set_urbit
        (urbit_client.send_message
           (resource_ship chan)
           (urbit_channel chan)
           (relay_text (str_before "!"%char (source e)) text)))
  else ret tt.

(** [check_queue]: the queue is first in, first out. *)
Definition check_queue : M t unit :=
  self <- get ;;
  match message_queue self with
  | [] => ret tt
  | data :: rest =>
      put {| instance_channels := instance_channels self;
             message_queue := rest;
             urbit := urbit self;
             privmsg_log := privmsg_log self ++ [(fst data, snd data)] |}
  end.

(** What [post_message] is given for a pairing. *)
Definition relayed (e : Event) (text : string) (p : Pairing)
  : string * string * string :=
  (resource_ship p, urbit_channel p,
   relay_text (str_before "!"%char (source e)) text).

End BridgeIrcBot.

Module urbit_bot.

(** A message as the Urbit listener delivers it. *)
Record Message : Type := {
  author : string;
  host_ship : string;
  resource_name : string;
  full_text : string
}.

(** The listener side: its pairings and the queue its sender puts
    to. *)
Record t : Type := mk {
  instance_channels : list Pairing;
  queue : list (string * string)
}.

(** [self.sender.send(data)], that is [message_queue.put(data)] on a
    queue without a size limit. *)
Definition sender_send (data : string * string) : M t unit :=
  modify (fun self =>
    {| instance_channels := instance_channels self;
       queue := queue self ++ [data] |}).

Definition urbit_message_handler (message : Message) : M t unit :=
  self <- get ;;
  let matched_ships :=
    filter (fun ship => resource_ship ship = host_ship message)
           (instance_channels self) in
  if (0 <? length matched_ships)%nat
  then
    for_each matched_ships (fun matched_ship =>
      if String.eqb (urbit_channel matched_ship) (resource_name message)
      then
        let message_data := author message ++ ": " ++ full_text message in
        sender_send (irc_channel matched_ship, message_data)
      else ret tt)
  else ret tt.

(** The pairings that match a message on both the host ship and the
    resource name. *)
Definition paired (message : Message) (p : Pairing) : Prop :=
  resource_ship p = host_ship message /\
  urbit_channel p = resource_name message.

#[global] Instance paired_dec (message : Message) (p : Pairing)
  : Decision (paired message p).
Proof. unfold paired. apply _. Defined.

(** What the handler puts on the queue for a pairing. *)
Definition queued (message : Message) (p : Pairing) : string * string :=
  (irc_channel p, author message ++ ": " ++ full_text message).

End urbit_bot.

(** ** Scenarios and specifications used in the statements *)

Module Reconnect.
Import ExponentialBackoff.

(** One more call of [run].  Between two calls the timer set by an
    earlier call may have fired: [check] then clears
    [_check_scheduled] and, the connection being down, calls [run]
    itself ([timer_fired = true]); otherwise [run] is called from the
    disconnect handler with the flag as it is. *)
Definition invoke (timer_fired : bool) (j : Q) : M state unit :=
  (if timer_fired then set_check_scheduled false else ret tt) ;;
  run j.

(** The results of successive calls of [run] on a connection that is
    never established again. *)
Fixpoint invocations (calls : list (bool * Q)) (s : state)
  : list (Result unit) :=
  match calls with
  | [] => []
  | (timer_fired, j) :: rest =>
      let (r, s') := invoke timer_fired j s in
      r :: invocations rest s'
  end.

Definition exhausted : Result unit :=
  Raise (ircBotException "Failed to reconnect to server.").

(** The delay as the specification words it: the exponential term
    capped at [max], times the jitter, truncated, then raised to at
    least [min]. *)
Definition backoffDelay (attempt min max : Z) (jitter : Q) : Z :=
  Z.max min (py_int (inject_Z (Z.min (2 ^ attempt - 1) max) * jitter)).

(** Every delay handed to the scheduler lies between [lo] and [hi]. *)
Definition scheduled_within (lo hi : Z) (sch : Scheduler) : Prop :=
  Forall (fun d => lo <= d <= hi) (execute_after_log sch).

End Reconnect.

Module Tracker.
Import SingleServerIRCBot.

(** No nickname is listed twice among the members of a tracked
    channel, and whoever holds a role flag in a channel is a member of
    it. *)
Definition channel_invariant (ch : Channel.t) : Prop :=
  NoDup (Channel.users ch) /\
  forall (mode : string) (d : gmap string Z) (nick : string),
    Channel.mode_users ch !! mode = Some d ->
    is_Some (d !! nick) -> is_Some (Channel._users ch !! nick).

Definition invariant (self : t) : Prop :=
  forall (name : string) (ch : Channel.t),
    channels self !! name = Some ch -> channel_invariant ch.

(** Two nicknames that the dictionaries take for the same key. *)
Definition same_nick (a b : string) : Prop := irc_lower a = irc_lower b.

(** [ch'] is [ch] without [nick]: the nick is no member and holds no
    flag, and membership and flags of every other nick, and the
    channel modes, are as before. *)
Definition removed (nick : string) (ch ch' : Channel.t) : Prop :=
  Channel.has_user ch' nick = false /\
  (forall mode, Channel.has_mode ch' mode nick = false) /\
  (forall other, ~ same_nick other nick ->
     Channel.has_user ch' other = Channel.has_user ch other /\
     forall mode,
       Channel.has_mode ch' mode other = Channel.has_mode ch mode other) /\
  Channel.modes ch' = Channel.modes ch.

(** [ch'] is [ch] with the member [old] renamed to [new]: [new] is a
    member and holds the flags [old] held (and those it had), [old] is
    gone unless it is the same key as [new], and every other nick is
    as before. *)
Definition renamed (old new : string) (ch ch' : Channel.t) : Prop :=
  Channel.has_user ch' new = true /\
  (forall mode,
     Channel.has_mode ch' mode new =
     Channel.has_mode ch mode old || Channel.has_mode ch mode new) /\
  (~ same_nick old new ->
     Channel.has_user ch' old = false /\
     forall mode, Channel.has_mode ch' mode old = false) /\
  (forall other, ~ same_nick other old -> ~ same_nick other new ->
     Channel.has_user ch' other = Channel.has_user ch other /\
     forall mode,
       Channel.has_mode ch' mode other = Channel.has_mode ch mode other) /\
  Channel.modes ch' = Channel.modes ch.

(** A computation keeps the invariant, whether it returns or raises. *)
Definition preserves {A} (m : M t A) : Prop :=
  forall self, invariant self -> invariant (snd (m self)).

(** [nick] is the nick a part or kick event [event] is about. *)
Definition affected (event : Event) (nick : string) : Prop :=
  (type event = "part" /\ nick = nick_of (source event)) \/
  (type event = "kick" /\ arguments event !! 0%nat = Some nick).

(** What the departure of [nick] from [channel] does to the bot
    [self], [out] being the handler's result and the bot after it:
    the local identity takes the whole entry with it; anyone else is
    removed from that channel if it is tracked, and the other entries
    stay as they are. *)
Definition leave_effect (local nick channel : string) (self : t)
    (out : Result unit * t) : Prop :=
  (nick = local ->
     IRCDict.contains (channels (snd out)) channel = false) /\
  (nick <> local ->
     forall ch, IRCDict.getitem (channels self) channel = Ok ch ->
       exists ch',
         fst out = Ok tt /\
         IRCDict.getitem (channels (snd out)) channel = Ok ch' /\
         removed nick ch ch' /\
         forall name, name <> IRCDict.transform_key channel ->
           channels (snd out) !! name = channels self !! name).

End Tracker.

(** ** Sample data *)

Module Sample.

Definition connection : ServerConnection := {| real_nickname := "bridge" |}.

Definition join (mask channel : string) : Event :=
  {| type := "join"; source := mask; target := channel; arguments := [] |}.

Definition part (mask channel : string) : Event :=
  {| type := "part"; source := mask; target := channel; arguments := [] |}.

Definition kick (mask channel nick : string) : Event :=
  {| type := "kick"; source := mask; target := channel;
     arguments := [nick; "bye"] |}.

Definition quit (mask : string) : Event :=
  {| type := "quit"; source := mask; target := ""; arguments := ["gone"] |}.

Definition nick (mask new : string) : Event :=
  {| type := "nick"; source := mask; target := new; arguments := [] |}.

Definition pubmsg (mask channel text : string) : Event :=
  {| type := "pubmsg"; source := mask; target := channel;
     arguments := [text] |}.

(** A session on one channel. *)
Definition session : list (ServerConnection * Event) :=
  [ (connection, join "bridge!b@host" "#urbit");
    (connection, join "Alice!a@host" "#urbit");
    (connection, join "bob!b@host" "#urbit");
    (connection, nick "Alice!a@host" "alicia");
    (connection, kick "bob!b@host" "#urbit" "alicia");
    (connection, quit "bob!b@host");
    (connection, part "bridge!b@host" "#urbit") ].

(** A channel in which [Alice] is an operator and [bob] has voice. *)
Definition urbit_channel_state : Channel.t :=
  {| Channel._users :=
       {[ "bridge" := 1; "alice" := 1; "bob" := 1 ]};
     Channel.mode_users :=
       {[ "o" := {[ "alice" := 1 ]}; "v" := {[ "bob" := 1 ]} ]};
     Channel.modes := {[ "t" := None ]} |}.

Definition bot : SingleServerIRCBot.t :=
  SingleServerIRCBot.set_channels
    {[ "#urbit" := urbit_channel_state;
       "#irc" := Channel.add_user "bridge" Channel.new ]}
    SingleServerIRCBot.new.

Definition pairings : list Pairing :=
  [ {| irc_channel := "#urbit"; resource_ship := "~zod";
       urbit_channel := "general" |};
    {| irc_channel := "#dev"; resource_ship := "~zod";
       urbit_channel := "dev" |};
    {| irc_channel := "#urbit"; resource_ship := "~bus";
       urbit_channel := "general" |} ].

Definition never_fails : nat -> bool := fun _ => false.

(** The first call of [post_message] fails to decode, the later ones
    do not. *)
Definition first_fails : nat -> bool := fun n => Nat.eqb n 0.

Definition bridge (fails : nat -> bool) : BridgeIrcBot.t :=
  {| BridgeIrcBot.instance_channels := pairings;
     BridgeIrcBot.message_queue := [];
     BridgeIrcBot.urbit := urbit_client.new fails;
     BridgeIrcBot.privmsg_log := [] |}.

Definition listener : urbit_bot.t :=
  {| urbit_bot.instance_channels := pairings; urbit_bot.queue := [] |}.

Definition urbit_message : urbit_bot.Message :=
  {| urbit_bot.author := "~sampel"; urbit_bot.host_ship := "~zod";
     urbit_bot.resource_name := "general"; urbit_bot.full_text := "hello" |}.

End Sample.

(** ** The life of a reconnect strategy *)

Module History.
Import ExponentialBackoff Reconnect.

(** The strategy and the scheduler after a series of calls of [run]. *)
Fixpoint after_calls (calls : list (bool * Q)) (s : state) : state :=
  match calls with
  | [] => s
  | (timer_fired, j) :: rest =>
      after_calls rest (snd (invoke timer_fired j s))
  end.

(** How many of the calls came from a timer that had fired. *)
Fixpoint timers_fired (calls : list (bool * Q)) : nat :=
  match calls with
  | [] => 0
  | (timer_fired, _) :: rest =>
      (if timer_fired then 1 else 0) + timers_fired rest
  end.

(** How many timers the strategy has handed to the scheduler. *)
Definition timers_set (s : state) : nat :=
  length (execute_after_log (snd s)).

End History.

(** ** SingleServerIRCBot.__init__ *)

Module Construction.

(** [__init__], for the channel map and the strategy: [recon] is the
    strategy passed in (by default the one created with the class), and
    [reconnection_interval] is [None] when the argument is left at its
    [missing] default.  The deprecated argument replaces the strategy by
    [ExponentialBackoff(min_interval=reconnection_interval)]. *)
Definition init (reconnection_interval : option Z)
    (recon : ExponentialBackoff.t) : Result SingleServerIRCBot.t :=
  match reconnection_interval with
  | None =>
      Ok {| SingleServerIRCBot.channels := ∅;
            SingleServerIRCBot.recon := recon;
            SingleServerIRCBot.scheduler := ExponentialBackoff.no_timers |}
  | Some interval =>
      match ExponentialBackoff.init (Some interval) None with
      | Ok strategy =>
          Ok {| SingleServerIRCBot.channels := ∅;
                SingleServerIRCBot.recon := strategy;
                SingleServerIRCBot.scheduler :=
                  ExponentialBackoff.no_timers |}
      | Raise e => Raise e
      end
  end.

End Construction.

(** ** Frames of the tracker *)

Module Frame.
Import SingleServerIRCBot.

(** A computation leaves the reconnect strategy and the scheduler alone
    and tracks no channel that was not tracked before. *)
Definition adds_no_channel {A} (m : M t A) : Prop :=
  forall self,
    recon (snd (m self)) = recon self /\
    scheduler (snd (m self)) = scheduler self /\
    forall name,
      is_Some (channels (snd (m self)) !! name) ->
      is_Some (channels self !! name).

(** [event] is the local identity's own join of the channel stored
    under [name]. *)
Definition own_join (c : ServerConnection) (event : Event) (name : string)
  : Prop :=
  type event = "join" /\
  nick_of (source event) = get_nickname c /\
  name = IRCDict.transform_key (target event).

End Frame.

(** ** Name replies *)

Module NameReply.
Import SingleServerIRCBot.

(** A character of a string stands for the Python character with the
    same code; the codes go up to 255.  Among these characters
    [str.split()] splits on tab to carriage return (9 to 13), the four
    separators and the space (28 to 32), the next-line character (133)
    and the no-break space (160). *)
Definition is_space (a : ascii) : bool :=
  let n := N_of_ascii a in
  (((9 <=? n) && (n <=? 13)) || ((28 <=? n) && (n <=? 32))
   || (n =? 133) || (n =? 160))%N.

(** [s.split()]: the maximal runs of characters that are not
    whitespace, in order; [cur] is the run being read. *)
Fixpoint split_from (cur : string) (s : string) : list string :=
  match s with
  | EmptyString => if String.eqb cur "" then [] else [cur]
  | String a rest =>
      if is_space a
      then if String.eqb cur "" then split_from "" rest
           else cur :: split_from "" rest
      else split_from (cur ++ String a "") rest
  end.

Definition py_split (s : string) : list string := split_from "" s.

(** [needle in hay] on strings: [needle] occurs in [hay]. *)
Fixpoint str_in (needle hay : string) : bool :=
  String.prefix needle hay ||
  match hay with
  | EmptyString => false
  | String _ rest => str_in needle rest
  end.

(** [Channel.user_modes] *)
Definition user_modes : string := "ovqha".

(** Modelled from the spec: the method [set_mode] of the class
    [Channel] of the IRC library (not among the sources), for a value
    that is a string, as [_on_namreply] passes it.  A role flag puts the
    nick in that flag's dictionary, creating the dictionary when it is
    the first holder; any other mode becomes a channel mode with the
    value as its argument. *)
Definition set_mode (mode value : string) (ch : Channel.t) : Channel.t :=
  if str_in mode user_modes
  then {| Channel._users := Channel._users ch;
          Channel.mode_users :=
            <[mode := IRCDict.setitem
                        (default ∅ (Channel.mode_users ch !! mode)) value 1]>
              (Channel.mode_users ch);
          Channel.modes := Channel.modes ch |}
  else {| Channel._users := Channel._users ch;
          Channel.mode_users := Channel.mode_users ch;
          Channel.modes := <[mode := Some value]> (Channel.modes ch) |}.

(** The first part of a round of the loop: the modes of a listed nick
    and the nick without its prefix character.  [prefix] is
    [self.connection.features.prefix], a dictionary from prefix
    characters to modes. *)
Definition strip (prefix : ascii -> option string) (a : ascii)
    (rest : string) : list string * string :=
  match prefix a with
  | Some mode => ([mode], rest)
  | None => ([], String a rest)
  end.

(** [_on_namreply], from the three values [event.arguments] is unpacked
    into.  [split] stands for [nick_list.split()], which yields the
    maximal runs of characters that are not whitespace, none of them
    empty; what holds for every [split] holds whatever characters the
    nick list is made of. *)
Definition _on_namreply_with (split : string -> list string)
    (prefix : ascii -> option string)
    (connection : ServerConnection) (ch_type channel nick_list : string)
  : M t unit :=
  if String.eqb channel "*" then ret tt
  else
    for_each (split nick_list) (fun nick =>
      match nick with
      | EmptyString => raise IndexError
      | String a rest =>
          let nick_modes := fst (strip prefix a rest) in
          let nick := snd (strip prefix a rest) in
          for_each nick_modes (fun mode =>
            channels_call channel (set_mode mode nick)) ;;
          channels_call channel (Channel.add_user nick)
      end).

(** [_on_namreply] on a nick list of characters below 256, which
    [py_split] splits as [str.split()] does. *)
Definition _on_namreply (prefix : ascii -> option string)
    (connection : ServerConnection) (ch_type channel nick_list : string)
  : M t unit :=
  _on_namreply_with py_split prefix connection ch_type channel nick_list.

(** The channel after the round of the loop for one listed nick. *)
Definition entered (prefix : ascii -> option string) (ch : Channel.t)
    (nick : string) : Channel.t :=
  match nick with
  | EmptyString => ch
  | String a rest =>
      Channel.add_user (snd (strip prefix a rest))
        (foldl (fun c mode => set_mode mode (snd (strip prefix a rest)) c)
               ch (fst (strip prefix a rest)))
  end.

(** The nick a listed name stands for. *)
Definition listed (prefix : ascii -> option string) (nick : string)
  : string :=
  match nick with
  | EmptyString => EmptyString
  | String a rest => snd (strip prefix a rest)
  end.

(** The usual prefix table: [@] for operators, [+] for voice. *)
Definition default_prefix (a : ascii) : option string :=
  if Ascii.eqb a "@" then Some "o"
  else if Ascii.eqb a "+" then Some "v"
  else None.

End NameReply.

(** ** Draining the queue *)

Module Drain.
Import BridgeIrcBot.

(** [check_queue], with the outcome of [self.connection.privmsg] given
    by [privmsg]: the message is taken off the queue, then handed to
    [privmsg], which returns or raises. *)
Definition check_queue_with (privmsg : string -> string -> Result unit)
  : M t unit :=
  self <- get ;;
  match message_queue self with
  | [] => ret tt
  | data :: rest =>
      put {| instance_channels := instance_channels self;
             message_queue := rest;
             urbit := urbit self;
             privmsg_log := privmsg_log self ++ [(fst data, snd data)] |} ;;
      (fun s => (privmsg (fst data) (snd data), s))
  end.

(** [n] rounds of the timer that [__init__] sets up with
    [execute_every]; a round that raises ends them. *)
Fixpoint polls (n : nat) (privmsg : string -> string -> Result unit)
  : M t unit :=
  match n with
  | O => ret tt
  | S n' => (check_queue_with privmsg ;; polls n' privmsg)
  end.

End Drain.

(** ** The bridge's configuration and the welcome *)

Module irc_bridge.

(** One entry of [instance["bots"]]; the two optional keys are [None]
    when absent. *)
Record Instance : Type := {
  irc_nickname : string;
  irc_hostname : string;
  irc_password : option string;
  irc_port : option Z;
  channels : list Pairing
}.

Record t : Type := mk {
  instance : Instance;
  nickname : string;
  hostname : string;
  password : string;
  port : Z;
  channel_list : list string
}.

(** [irc_bridge.__init__]: the loop appends each pairing's IRC channel
    to [channel_list]. *)
Definition init (inst : Instance) : t :=
  {| instance := inst;
     nickname := irc_nickname inst;
     hostname := irc_hostname inst;
     password := match irc_password inst with Some p => p | None => "" end;
     port := match irc_port inst with Some p => p | None => 6667 end;
     channel_list :=
       foldl (fun (l : list string) channel_group =>
                (l ++ [irc_channel channel_group])%list)
             [] (channels inst) |}.

(** [BridgeIrcBot.on_welcome]; the state is the list of the channels
    [c.join] has been called with, oldest first. *)
Definition on_welcome (channels : list string) : M (list string) unit :=
  if (length channels <? 1)%nat
  then raise (ircBotException "No channels passed")
  else for_each channels (fun channel =>
         modify (fun log : list string => (log ++ [channel])%list)).

(** The bot that [irc_bridge.start] constructs, before any event. *)
Definition bridge_bot (self : t) (mq : list (string * string))
    (urbit : urbit_client.t) : BridgeIrcBot.t :=
  {| BridgeIrcBot.instance_channels := channels (instance self);
     BridgeIrcBot.message_queue := mq;
     BridgeIrcBot.urbit := urbit;
     BridgeIrcBot.privmsg_log := [] |}.

End irc_bridge.

(** ** CTCP requests *)

Module Ctcp.

(** [get_version], [version] being what the IRC library reports for
    itself. *)
Definition get_version (version : string) : string :=
  "Python irc.bot (" ++ version ++ ")".

(** [connection.ctcp_reply(nick, text)]; the state is the list of the
    replies, oldest first. *)
Definition ctcp_reply (nick text : string) : M (list (string * string)) unit :=
  modify (fun log : list (string * string) =>
            (log ++ [(nick, text)])%list).

Definition on_dccchat (connection : ServerConnection) (event : Event)
  : M (list (string * string)) unit :=
  ret tt.

Definition on_ctcp (version : string) (connection : ServerConnection)
    (event : Event) : M (list (string * string)) unit :=
  let nick := nick_of (source event) in
  a0 <- list_getitem (arguments event) 0 ;;
  if String.eqb a0 "VERSION"
  then ctcp_reply nick ("VERSION " ++ get_version version)
  else
    a0 <- list_getitem (arguments event) 0 ;;
    if String.eqb a0 "PING"
    then
      if (1 <? length (arguments event))%nat
      then a1 <- list_getitem (arguments event) 1 ;;
           ctcp_reply nick ("PING " ++ a1)
      else ret tt
    else
      a0 <- list_getitem (arguments event) 0 ;;
      if String.eqb a0 "DCC"
      then
        a1 <- list_getitem (arguments event) 1 ;;
        if String.eqb (str_before " "%char a1) "CHAT"
        then on_dccchat connection event
        else ret tt
      else ret tt.

End Ctcp.

(** ** The server list *)

Module Servers.
Section iterators.
Context {A : Type}.

(** Modelled from the spec: the iterators of the Python libraries that
    [__init__] builds the server list from, [itertools.cycle] and
    [more_itertools.peekable]; their code is not among the sources.  The
    list is gone through round-robin, without end.  Of [cycle], [it] is
    what the iterable still has to give ([None] once it has run out),
    [saved] the items given so far, and [index] the place in [saved] of
    the next item of a later round. *)
Record cycle : Type := {
  it : option (list A);
  saved : list A;
  index : nat
}.

(** [itertools.cycle(iterable)] *)
Definition cycle_of (iterable : list A) : cycle :=
  {| it := Some iterable; saved := []; index := 0 |}.

Definition replay (c : cycle) : option (A * cycle) :=
  match saved c !! index c with
  | Some item =>
      Some (item,
            {| it := None; saved := saved c;
               index := if (length (saved c) <=? S (index c))%nat
                        then 0%nat else S (index c) |})
  | None => None
  end.

(** [next(c)]; [None] is [StopIteration], raised when the iterable was
    empty. *)
Definition cycle_next (c : cycle) : option (A * cycle) :=
  match it c with
  | Some (item :: rest) =>
      Some (item,
            {| it := Some rest; saved := saved c ++ [item];
               index := index c |})
  | Some [] | None => replay c
  end.

(** [more_itertools.peekable]: the iterator and the items peeked at but
    not yet taken. *)
Record peekable : Type := {
  _it : cycle;
  _cache : list A
}.

Definition peekable_of (c : cycle) : peekable :=
  {| _it := c; _cache := [] |}.

(** [p.peek()] *)
Definition peek (p : peekable) : option (A * peekable) :=
  match _cache p with
  | item :: _ => Some (item, p)
  | [] =>
      match cycle_next (_it p) with
      | Some (item, c) => Some (item, {| _it := c; _cache := [item] |})
      | None => None
      end
  end.

(** [next(p)] *)
Definition peekable_next (p : peekable) : option (A * peekable) :=
  match _cache p with
  | item :: rest => Some (item, {| _it := _it p; _cache := rest |})
  | [] =>
      match cycle_next (_it p) with
      | Some (item, c) => Some (item, {| _it := c; _cache := [] |})
      | None => None
      end
  end.

(** What the bot does with its servers: it peeks at the current one and
    moves on to the next.  [true] stands for a [peek], [false] for a
    [next]; the result lists what each [peek] returned, or is [None]
    when one of the steps raised [StopIteration]. *)
Fixpoint peeks (steps : list bool) (p : peekable) : option (list A) :=
  match steps with
  | [] => Some []
  | true :: rest =>
      match peek p with
      | Some (item, p') =>
          match peeks rest p' with
          | Some items => Some (item :: items)
          | None => None
          end
      | None => None
      end
  | false :: rest =>
      match peekable_next p with
      | Some (_, p') => peeks rest p'
      | None => None
      end
  end.

(** The servers a bot that walks its list in a ring would see: [k]
    counts the moves made so far. *)
Fixpoint ring (specs : list A) (k : nat) (steps : list bool)
  : list (option A) :=
  match steps with
  | [] => []
  | true :: rest => specs !! (k mod length specs)%nat :: ring specs k rest
  | false :: rest => ring specs (S k) rest
  end.

End iterators.
End Servers.

(** The iterator state after [k] items of the ring over [specs]. *)

Module Ring.
Import Servers.
Section positions.
Context {A : Type}.

Definition cycle_at (specs : list A) (k : nat) (c : cycle) : Prop :=
  ((k <= length specs)%nat /\
   it c = Some (drop k specs) /\ saved c = take k specs /\ index c = 0%nat) \/
  ((length specs <= k)%nat /\
   it c = None /\ saved c = specs /\ index c = (k mod length specs)%nat).

Definition peekable_at (specs : list A) (k : nat) (p : peekable) : Prop :=
  (_cache p = [] /\ cycle_at specs k (_it p)) \/
  (exists item,
      specs !! (k mod length specs)%nat = Some item /\
      _cache p = [item] /\ cycle_at specs (S k) (_it p)).

End positions.
End Ring.

(** ** Connecting and reconnecting *)

Module Session.

(** [irc.bot.ServerSpec] *)
Record ServerSpec : Type := {
  host : string;
  port : Z;
  password : string
}.

(** The bot with its server list and its connection: whether the
    connection is up, and the servers [connect] has been called with,
    oldest first. *)
Record t : Type := mk {
  bot : SingleServerIRCBot.t;
  servers : @Servers.peekable ServerSpec;
  connected : bool;
  connect_log : list ServerSpec
}.

(** The bot of a [BridgeIrcBot] after [__init__]: one server. *)
Definition new (strategy : ExponentialBackoff.t) (specs : list ServerSpec)
  : t :=
  {| bot := {| SingleServerIRCBot.channels := ∅;
               SingleServerIRCBot.recon := strategy;
               SingleServerIRCBot.scheduler := ExponentialBackoff.no_timers |};
     servers := Servers.peekable_of (Servers.cycle_of specs);
     connected := false;
     connect_log := [] |}.

Definition set_bot (b : SingleServerIRCBot.t) (self : t) : t :=
  {| bot := b; servers := servers self; connected := connected self;
     connect_log := connect_log self |}.

(** The event [_connect] makes up when the connection fails. *)
Definition disconnect_event (server : ServerSpec) : Event :=
  {| type := "disconnect"; source := host server; target := "";
     arguments := [""] |}.

(** The steps below return [None] where the server list raises
    [StopIteration].  [accepts n] tells whether the server accepts the
    connection attempt number [n]; a refused attempt is the
    [ServerConnectionError] that [_connect] catches. *)

Definition _connect (accepts : nat -> bool) (j : Q) (c : ServerConnection)
    (self : t) : option (Result unit * t) :=
  match Servers.peek (servers self) with
  | None => None
  | Some (server, p) =>
      let attempt := length (connect_log self) in
      if accepts attempt
      then Some (Ok tt,
                 {| bot := bot self; servers := p; connected := true;
                    connect_log := connect_log self ++ [server] |})
      else
        let (r, b) :=
          SingleServerIRCBot._on_disconnect j c (disconnect_event server)
                                            (bot self) in
        Some (r,
              {| bot := b; servers := p; connected := false;
                 connect_log := connect_log self ++ [server] |})
  end.

(** [jump_server]; [disconnect] is [self.connection.disconnect(msg)]. *)
Definition jump_server (disconnect : M t unit) (accepts : nat -> bool)
    (j : Q) (c : ServerConnection) (self : t) : option (Result unit * t) :=
  match (if connected self then disconnect self else (Ok tt, self)) with
  | (Raise e, self') => Some (Raise e, self')
  | (Ok _, self') =>
      match Servers.peekable_next (servers self') with
      | None => None
      | Some (_, p) =>
          _connect accepts j c
                   {| bot := bot self'; servers := p;
                      connected := connected self';
                      connect_log := connect_log self' |}
      end
  end.

(** [self.recon.check()], the timer's callback, on the bot: [j] is the
    jitter for its own call of [run], [j'] the one for the call that a
    refused connection leads to. *)
Definition check (disconnect : M t unit) (accepts : nat -> bool)
    (j j' : Q) (c : ServerConnection) (self : t)
  : option (Result unit * t) :=
  let cleared :=
    snd (zoom (fun b => (SingleServerIRCBot.recon b,
                         SingleServerIRCBot.scheduler b))
              SingleServerIRCBot.set_recon
              (ExponentialBackoff.set_check_scheduled false) (bot self)) in
  if connected self then Some (Ok tt, set_bot cleared self)
  else
    match SingleServerIRCBot.recon_run j cleared with
    | (Raise e, b) => Some (Raise e, set_bot b self)
    | (Ok _, b) => jump_server disconnect accepts j' c (set_bot b self)
    end.

(** How many timers the strategy has set on the bot's scheduler. *)
Definition timers (self : t) : nat :=
  length (ExponentialBackoff.execute_after_log
            (SingleServerIRCBot.scheduler (bot self))).

End Session.

(** ** The listener's loop *)

Module Listener.

(** How one call of [client.listen] ends: it returns, it raises
    [UnicodeDecodeError], or it raises something else. *)
Inductive Ending : Type :=
  | Returns
  | Decode
  | Fails (e : exn).

(** One call of [client.listen]: the messages it passes to the listener
    before it ends, and how it ends. *)
Record Call : Type := {
  heard : list urbit_bot.Message;
  ending : Ending
}.

(** The listener process: its own Urbit client and the bot with the
    queue. *)
Record t : Type := mk {
  client : urbit_client.t;
  listener : urbit_bot.t
}.

(** The bot after the handler has run on each of the messages. *)
Definition handle_all (messages : list urbit_bot.Message)
    (l : urbit_bot.t) : urbit_bot.t :=
  foldl (fun l message => snd (urbit_bot.urbit_message_handler message l))
        l messages.

(** The loop of [urbit_bot.start], over the calls of [listen] that end;
    when they have all ended the process is inside a call of [listen]
    that does not end, which the result [Ok tt] stands for. *)
Fixpoint start (script : list Call) (self : t) : Result unit * t :=
  match urbit_client.client (client self) with
  | None => (Raise (AttributeError "listen"), self)
  | Some _ =>
      match script with
      | [] => (Ok tt, self)
      | call :: rest =>
          let self1 :=
            {| client := client self;
               listener := handle_all (heard call) (listener self) |} in
          match ending call with
          | Returns => start rest self1
          | Fails e => (Raise e, self1)
          | Decode =>
              match urbit_client.reconnect (client self1) with
              | (Ok _, u) =>
                  start rest {| client := u; listener := listener self1 |}
              | (Raise e, u) =>
                  (Raise e, {| client := u; listener := listener self1 |})
              end
          end
      end
  end.

(** The messages of a series of calls, in order. *)
Definition all_heard (calls : list Call) : list urbit_bot.Message :=
  concat (map heard calls).

End Listener.

(** * Properties *)

(** ** The monad *)

Lemma bind_ok {S A B} (m : M S A) (k : A -> M S B) s a s' :
  m s = (Ok a, s') -> bind m k s = k a s'.
Proof. unfold bind. intros ->. reflexivity. Qed.

Lemma bind_raise {S A B} (m : M S A) (k : A -> M S B) s e s' :
  m s = (Raise e, s') -> bind m k s = (Raise e, s').
Proof. unfold bind. intros ->. reflexivity. Qed.

(** ** Truncation of a jittered interval *)

Section jitter.
Variable j : Q.
Hypothesis Hj : unit_draw j.

Lemma py_int_scale (x : Z) :
  py_int (inject_Z x * j) = Z.quot (x * Qnum j) (Zpos (Qden j)).
Proof. destruct j as [p d]. reflexivity. Qed.

Lemma draw_num_bounds : 0 <= Qnum j < Zpos (Qden j).
Proof.
  destruct Hj as [H0 H1]. destruct j as [p d].
  unfold Qle, Qlt in *. simpl in *. lia.
Qed.

(** A positive interval loses at least one second, and the result is
    never negative. *)
Lemma py_int_jitter_nonneg (x : Z) :
  0 <= x -> 0 <= py_int (inject_Z x * j) <= Z.max 0 (x - 1).
Proof.
  intros Hx. rewrite py_int_scale.
  pose proof draw_num_bounds as [Hp Hd].
  rewrite Z.quot_div_nonneg by nia.
  split.
  - apply Z.div_pos; nia.
  - destruct (Z.eq_dec x 0) as [-> | Hne].
    + rewrite Z.mul_0_l, Z.div_0_l by lia. lia.
    + assert (x * Qnum j / Z.pos (Qden j) < x).
      { apply Z.div_lt_upper_bound; nia. }
      lia.
Qed.

Lemma py_int_jitter_nonpos (x : Z) :
  x <= 0 -> py_int (inject_Z x * j) <= 0.
Proof.
  intros Hx. rewrite py_int_scale.
  pose proof draw_num_bounds as [Hp Hd].
  replace (x * Qnum j) with (- ((- x) * Qnum j)) by ring.
  rewrite Z.quot_opp_l by lia.
  assert (0 <= Z.quot (- x * Qnum j) (Z.pos (Qden j))).
  { apply Z.quot_pos; nia. }
  lia.
Qed.

Lemma py_int_jitter_le (x bound : Z) :
  0 <= bound -> x <= bound -> py_int (inject_Z x * j) <= Z.max 0 (bound - 1).
Proof.
  intros Hb Hx. destruct (Z_le_gt_dec 0 x) as [H0 | Hneg].
  - pose proof (py_int_jitter_nonneg x H0). lia.
  - pose proof (py_int_jitter_nonpos x ltac:(lia)). lia.
Qed.

End jitter.

(** ** ExponentialBackoff *)

Section backoff.
Import ExponentialBackoff Reconnect.

(** What one call of [run] does, by cases on the counter and the
    flag. *)
Lemma run_unfold (j : Q) (self : t) (sch : Scheduler) :
  run j (self, sch) =
  let n := attempt_count self in
  if n >? ceiling
  then (exhausted,
        (mk (min_interval self) (max_interval self)
            (_check_scheduled self) (n + 1), sch))
  else if _check_scheduled self
  then (Ok tt,
        (mk (min_interval self) (max_interval self) true (n + 1), sch))
  else (Ok tt,
        (mk (min_interval self) (max_interval self) true (n + 1 + 1),
         {| execute_after_log :=
              interval self (n + 1) j :: execute_after_log sch |})).
Proof.
  destruct self as [mn mx flag n]. unfold run, bind, next_attempt. simpl.
  destruct (n >? ceiling); [reflexivity|].
  destruct flag; reflexivity.
Qed.

(** The constructor returns only strategies that satisfy its
    assertion; without attributes it returns the default one. *)
Lemma init_asserts (min_attr max_attr : option Z) (self : t) :
  init min_attr max_attr = Ok self ->
  0 <= min_interval self <= max_interval self /\
  _check_scheduled self = false /\ attempt_count self = 1.
Proof.
  unfold init.
  destruct (0 <=? default default_min_interval min_attr) eqn:H0;
    [| discriminate].
  destruct (default default_min_interval min_attr
            <=? default default_max_interval max_attr) eqn:H1;
    [| discriminate].
  simpl. intros [= <-]. simpl.
  apply Z.leb_le in H0, H1. auto.
Qed.

Lemma init_defaults : init None None = Ok fresh.
Proof. reflexivity. Qed.

Lemma interval_backoffDelay (self : t) (n : Z) (j : Q) :
  interval self n j =
  backoffDelay n (min_interval self) (max_interval self) j.
Proof. unfold interval, backoffDelay. apply Z.max_comm. Qed.

Lemma interval_bounds (self : t) (n : Z) (j : Q) :
  unit_draw j ->
  0 <= min_interval self -> min_interval self <= max_interval self ->
  min_interval self <= interval self n j <=
    Z.max (min_interval self) (max_interval self - 1).
Proof.
  intros Hj H0 Hle. unfold interval.
  pose proof (py_int_jitter_le j Hj
                (Z.min (2 ^ n - 1) (max_interval self)) (max_interval self)
                ltac:(lia) ltac:(lia)).
  lia.
Qed.

End backoff.

Section backoff_properties.
Import ExponentialBackoff Reconnect.

Local Ltac draw := split; vm_compute; [discriminate | reflexivity].

(** C1 (as the code has it).  The specification has five calls of [run]
    on a fresh strategy return and the sixth raise.  [run] draws from
    the counter twice when it schedules a timer, once for the test
    against the ceiling and once for the exponent, so the counter
    passes the ceiling earlier: whatever the jitter and whether or not
    timers fire between the calls, one of the first five calls raises.
    When every timer fires before the next call it is the fourth, when
    none does it is the fifth.  With the code's own [check], whose
    [jump_server] fails to connect and so reports a disconnect (a call
    of [run] again), the second timer raises, in the fourth call of
    [run]. *)
Theorem run_exhausted_before_sixth_call :
  (forall (f1 f2 f3 f4 f5 : bool) (j1 j2 j3 j4 j5 : Q),
      exists k : nat,
        (k < 5)%nat /\
        invocations [(f1, j1); (f2, j2); (f3, j3); (f4, j4); (f5, j5)]
                    (fresh, no_timers) !! k = Some exhausted) /\
  (forall j : Q,
      invocations (replicate 6 (true, j)) (fresh, no_timers)
      = [Ok tt; Ok tt; Ok tt; exhausted; exhausted; exhausted]) /\
  (forall j : Q,
      invocations (replicate 6 (false, j)) (fresh, no_timers)
      = [Ok tt; Ok tt; Ok tt; Ok tt; exhausted; exhausted]) /\
  (forall j : Q,
      let retry := check false j (run j) in
      fst ((run j ;; retry) (fresh, no_timers)) = Ok tt /\
      fst ((run j ;; retry ;; retry) (fresh, no_timers)) = exhausted).
Proof.
  split; [| split; [| split]].
  - intros f1 f2 f3 f4 f5 j1 j2 j3 j4 j5.
    destruct f1, f2, f3, f4, f5;
      (exists 3%nat; split; [lia | reflexivity]) ||
      (exists 4%nat; split; [lia | reflexivity]).
  - intros j. reflexivity.
  - intros j. reflexivity.
  - intros j. split; reflexivity.
Qed.

(** C3.  With the bounds 3 and 5, a call of [run] that schedules a
    timer schedules it after
    [max(min_interval, int(min(2^attempt - 1, max_interval) * jitter))]
    seconds, [attempt] being the value drawn from the counter for the
    exponent: the product with the jitter is truncated before the
    result is raised to [min_interval].  For every attempt number the
    delay lies between 3 and 5. *)
Theorem run_delay_is_backoffDelay (self : t) (sch : Scheduler) (j : Q) :
  min_interval self = 3 -> max_interval self = 5 ->
  _check_scheduled self = false -> attempt_count self <= ceiling ->
  unit_draw j ->
  (forall attempt : Z,
      interval self attempt j = backoffDelay attempt 3 5 j /\
      3 <= backoffDelay attempt 3 5 j <= 5) /\
  exists self' : t,
    run j (self, sch) =
    (Ok tt,
     (self',
      {| execute_after_log :=
           backoffDelay (attempt_count self + 1) 3 5 j
           :: execute_after_log sch |})).
Proof.
  intros Hmin Hmax Hflag Hcount Hj.
  assert (Heq : forall a, interval self a j = backoffDelay a 3 5 j).
  { intros a. rewrite interval_backoffDelay, Hmin, Hmax. reflexivity. }
  split.
  - intros a. split; [apply Heq|]. rewrite <- Heq.
    pose proof (interval_bounds self a j Hj) as Hb.
    rewrite Hmin, Hmax in Hb. lia.
  - rewrite run_unfold. cbv zeta.
    replace (attempt_count self >? ceiling) with false
      by (symmetry; rewrite Z.gtb_ltb; apply Z.ltb_ge; exact Hcount).
    rewrite Hflag, Heq. eexists. reflexivity.
Qed.

Lemma run_delay_is_backoffDelay_witness :
  (forall attempt : Z,
      interval fresh attempt (9 # 10) = backoffDelay attempt 3 5 (9 # 10) /\
      3 <= backoffDelay attempt 3 5 (9 # 10) <= 5) /\
  exists self' : t,
    run (9 # 10) (fresh, no_timers) =
    (Ok tt,
     (self',
      {| execute_after_log :=
           backoffDelay (attempt_count fresh + 1) 3 5 (9 # 10)
           :: execute_after_log no_timers |})).
Proof.
  apply (run_delay_is_backoffDelay fresh no_timers (9 # 10));
    [reflexivity | reflexivity | reflexivity | vm_compute; discriminate
    | draw].
Defined.

(** C10.  When [min_interval < max_interval], every delay [run]
    computes is at most [max_interval - 1], so never [max_interval]:
    the jitter is below one and the product is truncated before it is
    compared with the bounds.  With the bounds 3 and 5 every delay is 3
    or 4. *)
Theorem run_delay_below_max (self : t) (sch : Scheduler) (j : Q) :
  unit_draw j ->
  0 <= min_interval self -> min_interval self < max_interval self ->
  scheduled_within (min_interval self) (max_interval self - 1) sch ->
  (forall attempt : Z,
      interval self attempt j <= max_interval self - 1 /\
      interval self attempt j <> max_interval self) /\
  scheduled_within (min_interval self) (max_interval self - 1)
                   (snd (snd (run j (self, sch)))) /\
  (forall attempt : Z, 3 <= interval fresh attempt j <= 4).
Proof.
  intros Hj H0 Hlt Hsch.
  assert (Hb : forall a,
             min_interval self <= interval self a j <= max_interval self - 1).
  { intros a. pose proof (interval_bounds self a j Hj H0 ltac:(lia)). lia. }
  split; [| split].
  - intros a. specialize (Hb a). lia.
  - rewrite run_unfold. cbv zeta.
    destruct (attempt_count self >? ceiling); [exact Hsch|].
    destruct (_check_scheduled self); [exact Hsch|].
    unfold scheduled_within in *. simpl. constructor; [apply Hb | exact Hsch].
  - intros a.
    pose proof (interval_bounds fresh a j Hj ltac:(vm_compute; discriminate)
                  ltac:(vm_compute; discriminate)) as Hf.
    change (min_interval fresh) with 3 in Hf.
    change (max_interval fresh) with 5 in Hf. lia.
Qed.

Lemma run_delay_below_max_witness :
  (forall attempt : Z,
      interval fresh attempt (9 # 10) <= max_interval fresh - 1 /\
      interval fresh attempt (9 # 10) <> max_interval fresh) /\
  scheduled_within (min_interval fresh) (max_interval fresh - 1)
                   (snd (snd (run (9 # 10) (fresh, no_timers)))) /\
  (forall attempt : Z, 3 <= interval fresh attempt (9 # 10) <= 4).
Proof.
  apply (run_delay_below_max fresh no_timers (9 # 10));
    [draw | vm_compute; discriminate | reflexivity | constructor].
Defined.

End backoff_properties.

(** ** Dictionaries *)

Section for_values_facts.
Context {V : Type}.
Variable body : V -> Result V.

Lemma for_values_fold (d0 d : gmap string V) :
  (forall k v, d !! k = Some v -> is_ok (body v) = true) ->
  map_fold
    (fun k v acc =>
       match acc with
       | (Ok _, d') =>
           match body v with
           | Ok v' => (Ok tt, <[k := v']> d')
           | Raise e => (Raise e, d')
           end
       | (Raise e, d') => (Raise e, d')
       end)
    (Ok tt, d0) d
  = (Ok tt, (outcome body <$> d) ∪ d0).
Proof.
  apply (map_fold_weak_ind
           (fun r m =>
              (forall k v, m !! k = Some v -> is_ok (body v) = true) ->
              r = (Ok tt, (outcome body <$> m) ∪ d0))).
  - intros _. rewrite fmap_empty, (left_id_L ∅ (∪)). reflexivity.
  - intros i x m r Hi IH Hall.
    rewrite IH.
    + assert (Hx : is_ok (body x) = true).
      { apply (Hall i). apply lookup_insert_eq. }
      rewrite fmap_insert, <- insert_union_l.
      destruct (body x) as [a | e] eqn:Hb; [| discriminate].
      replace (outcome body x) with a
        by (unfold outcome; rewrite Hb; reflexivity).
      reflexivity.
    + intros k v Hk. apply (Hall k).
      rewrite lookup_insert_ne; [exact Hk | congruence].
Qed.

(** A loop whose rounds all return is a map over the values. *)
Lemma for_values_ok (d : gmap string V) :
  (forall k v, d !! k = Some v -> is_ok (body v) = true) ->
  for_values body d = (Ok tt, outcome body <$> d).
Proof.
  intros Hall. unfold for_values. rewrite for_values_fold by exact Hall.
  f_equal. apply map_eq. intros i.
  rewrite lookup_union, !lookup_fmap. destruct (d !! i); reflexivity.
Qed.

End for_values_facts.

(** ** Channels *)

Section channel_facts.
Import Channel Tracker.

Local Ltac open_dicts :=
  unfold add_user, remove_user in *;
  unfold has_user, has_mode, IRCDict.contains, IRCDict.getitem,
    IRCDict.setitem, IRCDict.pop, IRCDict.pop_default, IRCDict.delitem,
    IRCDict.transform_key, same_nick in *;
  cbn [_users mode_users modes] in *.

Lemma bool_decide_is_Some_None {V} :
  bool_decide (is_Some (@None V)) = false.
Proof. reflexivity. Qed.

Lemma bool_decide_is_Some_Some {V} (v : V) :
  bool_decide (is_Some (Some v)) = true.
Proof. reflexivity. Qed.

Lemma has_user_lookup (ch : t) (nick : string) :
  has_user ch nick = true <-> is_Some (_users ch !! irc_lower nick).
Proof. open_dicts. apply bool_decide_eq_true. Qed.

Lemma has_user_add_user (nick : string) (ch : t) :
  has_user (add_user nick ch) nick = true.
Proof.
  open_dicts. simpl. rewrite lookup_insert_eq. reflexivity.
Qed.

Lemma remove_user_removed (nick : string) (ch : t) :
  removed nick ch (remove_user nick ch).
Proof.
  unfold removed, remove_user. open_dicts. simpl.
  split; [| split; [| split]].
  - rewrite lookup_delete_eq. reflexivity.
  - intros mode. rewrite lookup_fmap.
    destruct (mode_users ch !! mode); simpl; [| reflexivity].
    rewrite lookup_delete_eq. reflexivity.
  - intros other Hne. split.
    + rewrite lookup_delete_ne by congruence. reflexivity.
    + intros mode. rewrite lookup_fmap.
      destruct (mode_users ch !! mode); simpl; [| reflexivity].
      rewrite lookup_delete_ne by congruence. reflexivity.
  - reflexivity.
Qed.

(** What [rename_in] makes of the keys of a mode dictionary. *)
Lemma rename_in_lookup (old new : string) (d : gmap string Z) (k : string) :
  is_Some (rename_in old new d !! k) <->
  (is_Some (d !! irc_lower old) /\ k = irc_lower new) \/
  (is_Some (d !! k) /\ (k = irc_lower old -> k = irc_lower new)).
Proof.
  unfold rename_in. open_dicts.
  destruct (d !! irc_lower old) as [v |] eqn:Hold.
  - destruct (decide (irc_lower new = k)) as [<- | Hk].
    + rewrite lookup_insert_eq. split; [eauto | eauto].
    + rewrite lookup_insert_ne by exact Hk.
      destruct (decide (irc_lower old = k)) as [<- | Hk'].
      * rewrite lookup_delete_eq. split.
        -- intros [? ?]; discriminate.
        -- intros [[_ ?] | [_ Himp]]; [congruence |].
           exfalso. apply Hk. symmetry. apply Himp. reflexivity.
      * rewrite lookup_delete_ne by exact Hk'. split.
        -- intros H. right. split; [exact H | congruence].
        -- intros [[_ ?] | [H _]]; [congruence | exact H].
  - split.
    + intros H. right. split; [exact H |].
      intros ->. rewrite Hold in H. destruct H; discriminate.
    + intros [[[? ?] _] | [H _]]; [discriminate | exact H].
Qed.

Lemma change_nick_renamed (old new : string) (ch : t) :
  has_user ch old = true ->
  exists ch', change_nick old new ch = Ok ch' /\ renamed old new ch ch'.
Proof.
  intros Hold. apply has_user_lookup in Hold as [v Hv].
  unfold change_nick, IRCDict.pop, IRCDict.transform_key. rewrite Hv.
  eexists. split; [reflexivity |].
  assert (Hmode : forall mode k,
    has_mode {| _users := IRCDict.setitem (delete (irc_lower old) (_users ch)) new v;
                mode_users := rename_in old new <$> mode_users ch;
                modes := modes ch |} mode k
    = match mode_users ch !! mode with
      | Some d => bool_decide (is_Some (rename_in old new d !! irc_lower k))
      | None => false
      end).
  { intros mode k. open_dicts. simpl. rewrite lookup_fmap.
    destruct (mode_users ch !! mode); reflexivity. }
  unfold renamed. split; [| split; [| split; [| split]]].
  - open_dicts. simpl. rewrite lookup_insert_eq. reflexivity.
  - intros mode. rewrite Hmode. open_dicts.
    destruct (mode_users ch !! mode) as [d |]; [| reflexivity].
    apply eq_true_iff_eq. rewrite orb_true_iff, !bool_decide_eq_true.
    rewrite rename_in_lookup. intuition congruence.
  - intros Hne. split.
    + open_dicts. simpl.
      rewrite lookup_insert_ne, lookup_delete_eq by congruence. reflexivity.
    + intros mode. rewrite Hmode.
      destruct (mode_users ch !! mode) as [d |]; [| reflexivity].
      apply bool_decide_eq_false. rewrite rename_in_lookup.
      open_dicts. intuition congruence.
  - intros other Hno Hnn. split.
    + open_dicts. simpl.
      rewrite lookup_insert_ne, lookup_delete_ne by congruence. reflexivity.
    + intros mode. rewrite Hmode. open_dicts.
      destruct (mode_users ch !! mode) as [d |]; [| reflexivity].
      apply eq_true_iff_eq. rewrite !bool_decide_eq_true.
      rewrite rename_in_lookup. intuition congruence.
  - reflexivity.
Qed.

Lemma channel_invariant_new : channel_invariant new.
Proof.
  split; [apply NoDup_fst_map_to_list |].
  intros mode d nick Hd. simpl in Hd. rewrite lookup_empty in Hd.
  discriminate.
Qed.

Lemma channel_invariant_add_user (nick : string) (ch : t) :
  channel_invariant ch -> channel_invariant (add_user nick ch).
Proof.
  intros [_ Hflags]. split; [apply NoDup_fst_map_to_list |].
  intros mode d k Hd Hk. simpl in *. open_dicts.
  destruct (decide (irc_lower nick = k)) as [<- | Hne].
  - rewrite lookup_insert_eq. eauto.
  - rewrite lookup_insert_ne by exact Hne. eauto.
Qed.

Lemma channel_invariant_remove_user (nick : string) (ch : t) :
  channel_invariant ch -> channel_invariant (remove_user nick ch).
Proof.
  intros [_ Hflags]. split; [apply NoDup_fst_map_to_list |].
  intros mode d k Hd Hk. simpl in *. open_dicts.
  rewrite lookup_fmap in Hd.
  destruct (mode_users ch !! mode) as [d0 |] eqn:Hd0; [| discriminate].
  simpl in Hd. injection Hd as <-.
  destruct (decide (irc_lower nick = k)) as [<- | Hne].
  - rewrite lookup_delete_eq in Hk. destruct Hk; discriminate.
  - rewrite lookup_delete_ne in Hk |- * by exact Hne. eauto.
Qed.

Lemma channel_invariant_change_nick (old new : string) (ch ch' : t) :
  channel_invariant ch -> change_nick old new ch = Ok ch' ->
  channel_invariant ch'.
Proof.
  intros [_ Hflags] Hch. split; [apply NoDup_fst_map_to_list |].
  unfold change_nick, IRCDict.pop, IRCDict.transform_key in Hch.
  destruct (_users ch !! irc_lower old) as [v |] eqn:Hv; [| discriminate].
  injection Hch as <-. simpl.
  intros mode d k Hd Hk. rewrite lookup_fmap in Hd.
  destruct (mode_users ch !! mode) as [d0 |] eqn:Hd0; [| discriminate].
  simpl in Hd. injection Hd as <-.
  apply rename_in_lookup in Hk. open_dicts.
  destruct (decide (irc_lower new = k)) as [<- | Hne].
  - rewrite lookup_insert_eq. eauto.
  - rewrite lookup_insert_ne by exact Hne.
    destruct Hk as [[_ ->] | [Hk Himp]]; [congruence |].
    rewrite lookup_delete_ne by (intros <-; apply Hne; symmetry; auto).
    eauto.
Qed.

End channel_facts.

(** ** The tracker *)

Section tracker_facts.
Import SingleServerIRCBot Tracker.

Lemma invariant_set_channels (d : gmap string Channel.t) (self : t) :
  (forall name ch, d !! name = Some ch -> channel_invariant ch) ->
  invariant (set_channels d self).
Proof. intros H name ch Hch. exact (H name ch Hch). Qed.

Lemma preserves_ret {A} (a : A) : preserves (ret a).
Proof. intros self H. exact H. Qed.

Lemma preserves_raise {A} (e : exn) : preserves (@raise t A e).
Proof. intros self H. exact H. Qed.

Lemma preserves_bind {A B} (m : M t A) (k : A -> M t B) :
  preserves m -> (forall a, preserves (k a)) -> preserves (bind m k).
Proof.
  intros Hm Hk self H. unfold bind. specialize (Hm self H).
  destruct (m self) as [[a | e] self']; simpl in *.
  - apply Hk, Hm.
  - exact Hm.
Qed.

Lemma preserves_list_getitem {A} (l : list A) (i : nat) :
  preserves (list_getitem l i).
Proof.
  unfold list_getitem. destruct (l !! i);
    [apply preserves_ret | apply preserves_raise].
Qed.

Lemma preserves_channels_getitem (name : string)
    (k : Channel.t -> M t unit) :
  (forall ch, channel_invariant ch -> preserves (k ch)) ->
  preserves (bind (channels_getitem name) k).
Proof.
  intros Hk self H. unfold bind, channels_getitem, IRCDict.getitem.
  destruct (channels self !! IRCDict.transform_key name) as [ch |] eqn:Hch.
  - apply Hk; [exact (H _ _ Hch) | exact H].
  - exact H.
Qed.

Lemma preserves_channels_setitem (name : string) (ch : Channel.t) :
  channel_invariant ch -> preserves (channels_setitem name ch).
Proof.
  intros Hch self H. unfold channels_setitem, modify. simpl.
  apply invariant_set_channels. intros k c. unfold IRCDict.setitem.
  destruct (decide (IRCDict.transform_key name = k)) as [<- | Hne].
  - rewrite lookup_insert_eq. intros [= <-]. exact Hch.
  - rewrite lookup_insert_ne by exact Hne. apply H.
Qed.

Lemma preserves_channels_delitem (name : string) :
  preserves (channels_delitem name).
Proof.
  intros self H. unfold channels_delitem, IRCDict.delitem.
  destruct (channels self !! IRCDict.transform_key name); [| exact H].
  simpl. apply invariant_set_channels. intros k c Hk.
  apply lookup_delete_Some in Hk as [_ Hk]. exact (H _ _ Hk).
Qed.

Lemma preserves_channels_call (name : string)
    (method : Channel.t -> Channel.t) :
  (forall ch, channel_invariant ch -> channel_invariant (method ch)) ->
  preserves (channels_call name method).
Proof.
  intros Hm. unfold channels_call. apply preserves_channels_getitem.
  intros ch Hch. apply preserves_channels_setitem, Hm, Hch.
Qed.

(** On the channel map the loops of [_on_nick] and [_on_quit] are maps
    over the channels: no round raises. *)
Lemma _on_nick_unfold (c : ServerConnection) (e : Event) (self : t) :
  _on_nick c e self =
  (Ok tt,
   set_channels
     (outcome (fun ch =>
                 if Channel.has_user ch (nick_of (source e))
                 then Channel.change_nick (nick_of (source e)) (target e) ch
                 else Ok ch)
      <$> channels self) self).
Proof.
  unfold _on_nick. rewrite for_values_ok; [reflexivity |].
  intros k ch _. destruct (Channel.has_user ch _) eqn:Hu; [| reflexivity].
  destruct (change_nick_renamed _ (target e) _ Hu) as (ch' & -> & _).
  reflexivity.
Qed.

Lemma _on_quit_unfold (c : ServerConnection) (e : Event) (self : t) :
  _on_quit c e self =
  (Ok tt,
   set_channels
     ((fun ch => if Channel.has_user ch (nick_of (source e))
                 then Channel.remove_user (nick_of (source e)) ch
                 else ch)
      <$> channels self) self).
Proof.
  unfold _on_quit. rewrite for_values_ok.
  - do 2 f_equal. apply map_fmap_ext. intros k ch _. unfold outcome.
    destruct (Channel.has_user ch _); reflexivity.
  - intros k ch _. destruct (Channel.has_user ch _); reflexivity.
Qed.

Lemma preserves_on_join c e : preserves (_on_join c e).
Proof.
  unfold _on_join. apply preserves_bind.
  - destruct (String.eqb _ _);
      [apply preserves_channels_setitem, channel_invariant_new
      | apply preserves_ret].
  - intros _. apply preserves_channels_call.
    intros ch. apply channel_invariant_add_user.
Qed.

Lemma preserves_on_part c e : preserves (_on_part c e).
Proof.
  unfold _on_part. destruct (String.eqb _ _).
  - apply preserves_channels_delitem.
  - apply preserves_channels_call.
    intros ch. apply channel_invariant_remove_user.
Qed.

Lemma preserves_on_kick c e : preserves (_on_kick c e).
Proof.
  unfold _on_kick. apply preserves_bind; [apply preserves_list_getitem |].
  intros nick. destruct (String.eqb _ _).
  - apply preserves_channels_delitem.
  - apply preserves_channels_call.
    intros ch. apply channel_invariant_remove_user.
Qed.

Lemma preserves_on_nick c e : preserves (_on_nick c e).
Proof.
  intros self H. rewrite _on_nick_unfold. simpl.
  apply invariant_set_channels. intros k ch' Hk.
  rewrite lookup_fmap in Hk.
  destruct (channels self !! k) as [ch |] eqn:Hch; [| discriminate].
  simpl in Hk. injection Hk as <-. specialize (H _ _ Hch).
  unfold outcome. destruct (Channel.has_user ch _); [| exact H].
  destruct (Channel.change_nick _ _ ch) as [ch' |] eqn:Hcn; [| exact H].
  exact (channel_invariant_change_nick _ _ _ _ H Hcn).
Qed.

Lemma preserves_on_quit c e : preserves (_on_quit c e).
Proof.
  intros self H. rewrite _on_quit_unfold. simpl.
  apply invariant_set_channels. intros k ch' Hk.
  rewrite lookup_fmap in Hk.
  destruct (channels self !! k) as [ch |] eqn:Hch; [| discriminate].
  simpl in Hk. injection Hk as <-. specialize (H _ _ Hch).
  destruct (Channel.has_user ch _); [| exact H].
  apply channel_invariant_remove_user, H.
Qed.

Lemma preserves_membership_event j c e :
  membership_event e = true -> preserves (handle_event j c e).
Proof.
  intros He. apply bool_decide_eq_true in He.
  unfold handle_event, handler.
  repeat (apply elem_of_cons in He as [-> | He]);
    [ apply preserves_on_join | apply preserves_on_part
    | apply preserves_on_kick | apply preserves_on_quit
    | apply preserves_on_nick | ].
  apply elem_of_nil in He. destruct He.
Qed.

Lemma invariant_empty (self : t) : channels self = ∅ -> invariant self.
Proof.
  intros H name ch Hch. rewrite H, lookup_empty in Hch. discriminate.
Qed.

Lemma invariant_trace (evs : list (ServerConnection * Event)) :
  Forall (fun ce => membership_event (snd ce) = true) evs ->
  forall self, invariant self -> Forall invariant (trace evs self).
Proof.
  induction 1 as [| [c e] evs He _ IH]; intros self H; simpl.
  - constructor; [exact H | constructor].
  - constructor; [exact H |].
    pose proof (preserves_membership_event 0 c e He self H) as H'.
    destruct (handle_event 0 c e self) as [[[] | ex] self']; simpl in H'.
    + apply IH, H'.
    + constructor; [exact H' | constructor].
Qed.

End tracker_facts.

Section tracker_properties.
Import SingleServerIRCBot Tracker.

(** C4.  Along every stream of join, part, kick, quit and nick-change
    events delivered to a fresh bot, in every state the bot goes
    through, no tracked channel lists a nickname twice and every
    holder of a role flag in a channel is a member of that channel.
    The same holds from any bot that satisfies the two conditions to
    begin with, whatever role flags it holds. *)
Theorem membership_events_keep_invariant
    (evs : list (ServerConnection * Event)) :
  Forall (fun ce => membership_event (snd ce) = true) evs ->
  Forall invariant (trace evs new) /\
  forall self, invariant self -> Forall invariant (trace evs self).
Proof.
  intros Hevs. split.
  - apply invariant_trace; [exact Hevs |].
    apply invariant_empty. reflexivity.
  - apply invariant_trace. exact Hevs.
Qed.

Lemma invariant_sample_bot : invariant Sample.bot.
Proof.
  intros name ch Hch. unfold Sample.bot in Hch. simpl in Hch.
  apply lookup_insert_Some in Hch as [[_ <-] | [_ Hch]].
  - split; [apply NoDup_fst_map_to_list |].
    intros mode d nick Hd Hn. simpl in Hd.
    apply lookup_insert_Some in Hd as [[_ <-] | [_ Hd]].
    + destruct Hn as [v Hn].
      apply lookup_singleton_Some in Hn as [<- _]. simpl. eauto.
    + apply lookup_singleton_Some in Hd as [_ <-].
      destruct Hn as [v Hn].
      apply lookup_singleton_Some in Hn as [<- _]. simpl. eauto.
  - apply lookup_singleton_Some in Hch as [_ <-].
    apply channel_invariant_add_user, channel_invariant_new.
Qed.

Lemma membership_events_keep_invariant_witness :
  Forall invariant (trace Sample.session new) /\
  Forall invariant (trace Sample.session Sample.bot).
Proof.
  destruct (membership_events_keep_invariant Sample.session) as [H1 H2].
  - repeat constructor.
  - split; [exact H1 | exact (H2 Sample.bot invariant_sample_bot)].
Defined.

(** C5.  After the disconnect handler the channel map is empty, whatever
    it held and whatever the strategy does: the handler raises exactly
    when the attempt counter has passed the ceiling, and the map is
    empty then too. *)
Theorem disconnect_empties_channels
    (j : Q) (c : ServerConnection) (e : Event) (self : t) :
  channels (snd (_on_disconnect j c e self)) = ∅ /\
  is_raise (fst (_on_disconnect j c e self))
  = (ExponentialBackoff.attempt_count (recon self)
     >? ExponentialBackoff.ceiling).
Proof.
  unfold _on_disconnect, recon_run, bind, modify, zoom. simpl.
  rewrite run_unfold. cbv zeta.
  destruct (ExponentialBackoff.attempt_count (recon self)
            >? ExponentialBackoff.ceiling).
  - split; reflexivity.
  - destruct (ExponentialBackoff._check_scheduled (recon self));
      split; reflexivity.
Qed.

Lemma leave_effect_body (local nick channel : string) (self : t) :
  leave_effect local nick channel self
    ((if String.eqb nick local
      then channels_delitem channel
      else channels_call channel (Channel.remove_user nick)) self).
Proof.
  split.
  - intros ->. rewrite String.eqb_refl.
    unfold channels_delitem, IRCDict.delitem, IRCDict.contains.
    destruct (channels self !! IRCDict.transform_key channel) eqn:Hch;
      simpl.
    + rewrite lookup_delete_eq. reflexivity.
    + rewrite Hch. reflexivity.
  - intros Hne ch Hch. apply String.eqb_neq in Hne. rewrite Hne.
    unfold channels_call, bind, channels_getitem. rewrite Hch.
    unfold channels_setitem, modify, IRCDict.getitem, IRCDict.setitem.
    simpl. exists (Channel.remove_user nick ch).
    split; [reflexivity |]. split; [| split].
    + rewrite lookup_insert_eq. reflexivity.
    + apply remove_user_removed.
    + intros name Hname. rewrite lookup_insert_ne by congruence.
      reflexivity.
Qed.

(** C6.  A part or kick event about the local identity leaves the
    channel out of the channel map altogether.  About anyone else, on
    a tracked channel, it removes that nick and its role flags from
    that channel and changes no other entry. *)
Theorem part_kick_effect
    (j : Q) (c : ServerConnection) (e : Event) (nick : string) (self : t) :
  affected e nick ->
  leave_effect (get_nickname c) nick (target e) self
               (handle_event j c e self).
Proof.
  intros [[Hty ->] | [Hty Harg]]; unfold handle_event, handler;
    rewrite Hty; simpl.
  - apply leave_effect_body.
  - unfold _on_kick, bind, list_getitem. rewrite Harg. simpl.
    apply leave_effect_body.
Qed.

Lemma part_kick_effect_witness :
  leave_effect "bridge" "alice" "#urbit" Sample.bot
    (handle_event 0 Sample.connection
       (Sample.kick "bob!b@host" "#urbit" "alice") Sample.bot) /\
  leave_effect "bridge" "bridge" "#urbit" Sample.bot
    (handle_event 0 Sample.connection
       (Sample.part "bridge!b@host" "#urbit") Sample.bot).
Proof.
  split.
  - apply (part_kick_effect 0 Sample.connection
             (Sample.kick "bob!b@host" "#urbit" "alice") "alice" Sample.bot).
    right. split; reflexivity.
  - apply (part_kick_effect 0 Sample.connection
             (Sample.part "bridge!b@host" "#urbit") "bridge" Sample.bot).
    left. split; reflexivity.
Defined.

(** C7.  A nick-change event never raises.  In every tracked channel
    that has [old] as a member, [old] is renamed to [new] and [new]
    holds the role flags [old] held; every tracked channel without
    [old] is left exactly as it was; no channel is added or dropped. *)
Theorem nick_change_renames (c : ServerConnection) (e : Event) (self : t) :
  let old := nick_of (source e) in
  let new := target e in
  exists self',
    _on_nick c e self = (Ok tt, self') /\
    forall name,
      match channels self !! name with
      | None => channels self' !! name = None
      | Some ch =>
          exists ch',
            channels self' !! name = Some ch' /\
            if Channel.has_user ch old
            then renamed old new ch ch'
            else ch' = ch
      end.
Proof.
  intros old new. rewrite _on_nick_unfold. eexists. split; [reflexivity |].
  intros name. simpl. rewrite lookup_fmap.
  destruct (channels self !! name) as [ch |]; simpl; [| reflexivity].
  eexists. split; [reflexivity |]. unfold outcome. fold old new.
  destruct (Channel.has_user ch old) eqn:Hu; [| reflexivity].
  destruct (change_nick_renamed old new ch Hu) as (ch' & -> & Hren).
  exact Hren.
Qed.

(** C9 fails on the code: a join of someone else on a channel that is
    not tracked raises [KeyError], and nobody becomes a member. *)
Lemma join_of_other_on_untracked_channel_raises :
  fst (_on_join Sample.connection (Sample.join "Alice!a@host" "#urbit") new)
  = Raise (KeyError "#urbit") /\
  IRCDict.contains
    (channels
       (snd (_on_join Sample.connection
                      (Sample.join "Alice!a@host" "#urbit") new)))
    "#urbit" = false.
Proof. split; reflexivity. Qed.

(** C9, amended.  When the joining nick is the local identity or the
    channel is tracked already, the handler returns and the nick is a
    member of the channel afterwards (for the local identity the entry
    is created).  Otherwise the handler raises [KeyError] on the
    channel and leaves the bot as it was. *)
Theorem join_effect (c : ServerConnection) (e : Event) (self : t) :
  let ch := target e in
  let nick := nick_of (source e) in
  if String.eqb nick (get_nickname c) || IRCDict.contains (channels self) ch
  then exists chan,
      fst (_on_join c e self) = Ok tt /\
      IRCDict.getitem (channels (snd (_on_join c e self))) ch = Ok chan /\
      Channel.has_user chan nick = true
  else _on_join c e self = (Raise (KeyError ch), self).
Proof.
  intros ch nick. unfold _on_join. fold ch nick.
  unfold bind, channels_call, channels_setitem, channels_getitem, modify,
    bind, IRCDict.contains, IRCDict.getitem, IRCDict.setitem.
  destruct (String.eqb nick (get_nickname c)); simpl.
  - rewrite lookup_insert_eq. simpl. rewrite lookup_insert_eq.
    eexists. split; [reflexivity |]. split; [reflexivity |].
    apply has_user_add_user.
  - destruct (channels self !! IRCDict.transform_key ch) as [chan |] eqn:Hc;
      simpl.
    + rewrite lookup_insert_eq.
      eexists. split; [reflexivity |]. split; [reflexivity |].
      apply has_user_add_user.
    + reflexivity.
Qed.

End tracker_properties.

(** ** The relay *)

Section relay_facts.
Import urbit_client.

Lemma guarded_for_each {S A} (l : list A) (body : A -> M S unit) :
  (if (0 <? length l)%nat then for_each l body else ret tt)
  = for_each l body.
Proof. destruct l; reflexivity. Qed.

Lemma send_message_delivers (ship chan msg : string) (u : t) (q : Quinnat) :
  client u = Some q -> decode_fails u (post_calls u) = false ->
  send_message ship chan msg u = (Ok tt, delivered u [(ship, chan, msg)]).
Proof.
  intros Hc Hf. unfold send_message, try_except, client_post_message.
  rewrite Hc, Hf. unfold delivered. simpl. rewrite <- Hc.
  do 2 f_equal. symmetry. apply Nat.add_1_r.
Qed.

Lemma delivered_nil (u : t) : delivered u [] = u.
Proof.
  destruct u. unfold delivered. simpl.
  rewrite app_nil_r, Nat.add_0_r. reflexivity.
Qed.

Lemma delivered_app (u : t) (a b : list (string * string * string)) :
  delivered (delivered u a) b = delivered u (a ++ b).
Proof.
  unfold delivered. simpl.
  rewrite <- app_assoc, length_app, Nat.add_assoc. reflexivity.
Qed.

(** A failed decode: the message is not posted, the session is deleted
    and a new one opened, but [self.client] ends up [None]. *)
Lemma send_message_decode_failure
    (ship chan msg : string) (u : t) (q : Quinnat) :
  client u = Some q -> decode_fails u (post_calls u) = true ->
  send_message ship chan msg u =
  (Ok tt,
   {| client := None; created := S (created u);
      deleted := session q :: deleted u; posted := posted u;
      post_calls := S (post_calls u); decode_fails := decode_fails u |}).
Proof.
  intros Hc Hf. unfold send_message, try_except, client_post_message.
  rewrite Hc, Hf. simpl.
  unfold reconnect, bind, client_ship_delete. simpl. reflexivity.
Qed.

Lemma send_message_without_client (ship chan msg : string) (u : t) :
  client u = None ->
  send_message ship chan msg u = (Raise (AttributeError "post_message"), u).
Proof.
  intros Hc. unfold send_message, try_except, client_post_message.
  rewrite Hc. reflexivity.
Qed.

End relay_facts.

Section bridge_facts.
Import BridgeIrcBot.

Lemma set_urbit_same (self : t) : set_urbit (urbit self) self = self.
Proof. destruct self. reflexivity. Qed.

Lemma on_pubmsg_unfold (c : ServerConnection) (e : Event) (self : t) :
  on_pubmsg c e self =
  for_each (matching self e) (fun chan =>
      text <- list_getitem (arguments e) 0 ;;
      zoom urbit set_urbit
        (urbit_client.send_message
           (resource_ship chan) (urbit_channel chan)
           (relay_text (str_before "!"%char (source e)) text))) self.
Proof.
  unfold on_pubmsg, bind at 1, get. cbv zeta.
  rewrite guarded_for_each. reflexivity.
Qed.

Lemma relay_one (e : Event) (text : string) (q : urbit_client.Quinnat)
    (chan : Pairing) (self : t) :
  arguments e !! 0%nat = Some text ->
  urbit_client.client (urbit self) = Some q ->
  urbit_client.decode_fails (urbit self)
    (urbit_client.post_calls (urbit self)) = false ->
  (text <- list_getitem (arguments e) 0 ;;
   zoom urbit set_urbit
     (urbit_client.send_message
        (resource_ship chan) (urbit_channel chan)
        (relay_text (str_before "!"%char (source e)) text))) self
  = (Ok tt,
     set_urbit (urbit_client.delivered (urbit self) [relayed e text chan])
               self).
Proof.
  intros Harg Hc Hf. unfold bind, list_getitem. rewrite Harg. cbn [ret].
  unfold zoom. rewrite (send_message_delivers _ _ _ _ q Hc Hf).
  reflexivity.
Qed.

Lemma relay_all (e : Event) (text : string) (q : urbit_client.Quinnat)
    (l : list Pairing) :
  arguments e !! 0%nat = Some text ->
  forall self,
    urbit_client.client (urbit self) = Some q ->
    (forall n, urbit_client.decode_fails (urbit self) n = false) ->
    for_each l (fun chan =>
        text <- list_getitem (arguments e) 0 ;;
        zoom urbit set_urbit
          (urbit_client.send_message
             (resource_ship chan) (urbit_channel chan)
             (relay_text (str_before "!"%char (source e)) text))) self
    = (Ok tt,
       set_urbit
         (urbit_client.delivered (urbit self) (map (relayed e text) l))
         self).
Proof.
  intros Harg. induction l as [| p l IH]; intros self Hc Hf.
  - simpl. rewrite delivered_nil, set_urbit_same. reflexivity.
  - cbn [for_each].
    rewrite (bind_ok _ _ _ _ _ (relay_one e text q p self Harg Hc (Hf _))).
    rewrite IH; [| exact Hc | exact Hf].
    cbn [map urbit set_urbit]. rewrite delivered_app. reflexivity.
Qed.

(** One round on which [post_message] fails to decode: the failure is
    caught, and [reconnect] leaves [self.client] at [None]. *)
Lemma relay_one_decode_failure (e : Event) (text : string)
    (q : urbit_client.Quinnat) (chan : Pairing) (self : t) :
  arguments e !! 0%nat = Some text ->
  urbit_client.client (urbit self) = Some q ->
  urbit_client.decode_fails (urbit self)
    (urbit_client.post_calls (urbit self)) = true ->
  (text <- list_getitem (arguments e) 0 ;;
   zoom urbit set_urbit
     (urbit_client.send_message
        (resource_ship chan) (urbit_channel chan)
        (relay_text (str_before "!"%char (source e)) text))) self
  = (Ok tt,
     set_urbit
       {| urbit_client.client := None;
          urbit_client.created := S (urbit_client.created (urbit self));
          urbit_client.deleted :=
            urbit_client.session q :: urbit_client.deleted (urbit self);
          urbit_client.posted := urbit_client.posted (urbit self);
          urbit_client.post_calls :=
            S (urbit_client.post_calls (urbit self));
          urbit_client.decode_fails :=
            urbit_client.decode_fails (urbit self) |}
       self).
Proof.
  intros Harg Hc Hf. unfold bind, list_getitem. rewrite Harg. cbn [ret].
  unfold zoom. rewrite (send_message_decode_failure _ _ _ _ q Hc Hf).
  reflexivity.
Qed.

(** Without a client the first round raises, and the loop with it. *)
Lemma relay_without_client (e : Event) (text : string)
    (p : Pairing) (l : list Pairing) (self : t) :
  arguments e !! 0%nat = Some text ->
  urbit_client.client (urbit self) = None ->
  for_each (p :: l) (fun chan =>
      text <- list_getitem (arguments e) 0 ;;
      zoom urbit set_urbit
        (urbit_client.send_message
           (resource_ship chan) (urbit_channel chan)
           (relay_text (str_before "!"%char (source e)) text))) self
  = (Raise (AttributeError "post_message"), self).
Proof.
  intros Harg Hc. cbn [for_each]. apply bind_raise.
  unfold bind, list_getitem. rewrite Harg. cbn [ret].
  unfold zoom. rewrite (send_message_without_client _ _ _ _ Hc).
  rewrite set_urbit_same. reflexivity.
Qed.

End bridge_facts.

Section listener_facts.
Import urbit_bot.

Lemma urbit_message_handler_unfold (message : Message) (self : t) :
  urbit_message_handler message self =
  for_each
    (filter (fun ship => resource_ship ship = host_ship message)
            (instance_channels self))
    (fun matched_ship =>
       if String.eqb (urbit_channel matched_ship) (resource_name message)
       then sender_send (queued message matched_ship)
       else ret tt) self.
Proof.
  unfold urbit_message_handler, bind at 1, get. cbv zeta.
  rewrite guarded_for_each. reflexivity.
Qed.

Lemma enqueue_paired (message : Message) (ic l : list Pairing) :
  forall qu,
    for_each
      (filter (fun ship => resource_ship ship = host_ship message) l)
      (fun matched_ship =>
         if String.eqb (urbit_channel matched_ship) (resource_name message)
         then sender_send (queued message matched_ship)
         else ret tt)
      {| instance_channels := ic; queue := qu |}
    = (Ok tt,
       {| instance_channels := ic;
          queue := qu ++ map (queued message) (filter (paired message) l) |}).
Proof.
  induction l as [| p l IH]; intros qu.
  - simpl. rewrite app_nil_r. reflexivity.
  - rewrite !filter_cons.
    destruct (decide (resource_ship p = host_ship message)) as [Hs | Hs].
    + cbn [for_each]. unfold bind.
      destruct (String.eqb_spec (urbit_channel p) (resource_name message))
        as [Hc | Hc].
      * rewrite decide_True by (split; assumption).
        unfold sender_send, modify. cbn [instance_channels queue].
        rewrite IH. cbn [map]. rewrite <- app_assoc. reflexivity.
      * rewrite decide_False by (intros [_ ?]; contradiction).
        cbn [ret]. apply IH.
    + rewrite decide_False by (intros [? _]; contradiction). apply IH.
Qed.

End listener_facts.

Section relay_properties.

(** C2 (as the code has it).  A send on which [post_message] fails to
    decode returns: the message is not posted and not tried again, the
    session's ship is deleted and a new session is opened.  But
    [reconnect] stores the result of [connect], which is [None], in
    [self.client]; every later send raises [AttributeError] and
    delivers nothing, whereas the specification has the next message
    delivered. *)
Theorem decode_failure_loses_the_client
    (u : urbit_client.t) (q : urbit_client.Quinnat)
    (ship chan msg ship' chan' msg' : string) :
  urbit_client.client u = Some q ->
  urbit_client.decode_fails u (urbit_client.post_calls u) = true ->
  let u' := snd (urbit_client.send_message ship chan msg u) in
  fst (urbit_client.send_message ship chan msg u) = Ok tt /\
  urbit_client.posted u' = urbit_client.posted u /\
  urbit_client.deleted u' =
    urbit_client.session q :: urbit_client.deleted u /\
  urbit_client.created u' = S (urbit_client.created u) /\
  urbit_client.client u' = None /\
  urbit_client.send_message ship' chan' msg' u'
  = (Raise (AttributeError "post_message"), u').
Proof.
  intros Hc Hf u'. subst u'.
  rewrite (send_message_decode_failure _ _ _ _ q Hc Hf). simpl.
  repeat split.
Qed.

Lemma decode_failure_loses_the_client_witness :
  let u := urbit_client.new Sample.first_fails in
  let u' := snd (urbit_client.send_message "~zod" "general" "Alice: hi" u) in
  fst (urbit_client.send_message "~zod" "general" "Alice: hi" u) = Ok tt /\
  urbit_client.posted u' = urbit_client.posted u /\
  urbit_client.deleted u' = 0%nat :: urbit_client.deleted u /\
  urbit_client.created u' = S (urbit_client.created u) /\
  urbit_client.client u' = None /\
  urbit_client.send_message "~zod" "general" "bob: next" u'
  = (Raise (AttributeError "post_message"), u').
Proof.
  exact (decode_failure_loses_the_client
           (urbit_client.new Sample.first_fails)
           {| urbit_client.session := 0 |}
           "~zod" "general" "Alice: hi" "~zod" "general" "bob: next"
           eq_refl eq_refl).
Defined.

(** The same on the bridge bot: after a public message whose relay
    failed to decode, the handler raises on the next public message of
    a paired channel, and nothing is ever posted. *)
Lemma pubmsg_after_decode_failure_raises :
  let e1 := Sample.pubmsg "Alice!a@host" "#dev" "hi" in
  let e2 := Sample.pubmsg "bob!b@host" "#dev" "next" in
  let b0 := Sample.bridge Sample.first_fails in
  let b1 := snd (BridgeIrcBot.on_pubmsg Sample.connection e1 b0) in
  let b2 := snd (BridgeIrcBot.on_pubmsg Sample.connection e2 b1) in
  fst (BridgeIrcBot.on_pubmsg Sample.connection e1 b0) = Ok tt /\
  fst (BridgeIrcBot.on_pubmsg Sample.connection e2 b1)
  = Raise (AttributeError "post_message") /\
  urbit_client.posted (BridgeIrcBot.urbit b2) = [].
Proof. repeat split. Qed.

(** C8 (as the code has it).  A public message is not always sent once
    for every pairing of its channel.  On a live client whose next call
    of [post_message] fails to decode, the send for the first matching
    pairing is lost and leaves [self.client] at [None] (the defect of
    C2); the send for the second matching pairing, if there is one,
    raises [AttributeError] out of [on_pubmsg], and the pairings after
    it are not tried: nothing is posted and [post_message] is called
    once.  From then on every public message on a paired channel
    raises [AttributeError] and is sent for no pairing. *)
Theorem relay_stops_after_decode_failure
    (c : ServerConnection) (e : Event) (self : BridgeIrcBot.t)
    (q : urbit_client.Quinnat) (text : string)
    (p : Pairing) (rest : list Pairing) :
  urbit_client.client (BridgeIrcBot.urbit self) = Some q ->
  urbit_client.decode_fails (BridgeIrcBot.urbit self)
    (urbit_client.post_calls (BridgeIrcBot.urbit self)) = true ->
  arguments e !! 0%nat = Some text ->
  BridgeIrcBot.matching self e = p :: rest ->
  let self' := snd (BridgeIrcBot.on_pubmsg c e self) in
  fst (BridgeIrcBot.on_pubmsg c e self)
  = match rest with
    | [] => Ok tt
    | _ :: _ => Raise (AttributeError "post_message")
    end /\
  urbit_client.posted (BridgeIrcBot.urbit self')
  = urbit_client.posted (BridgeIrcBot.urbit self) /\
  urbit_client.post_calls (BridgeIrcBot.urbit self')
  = S (urbit_client.post_calls (BridgeIrcBot.urbit self)) /\
  urbit_client.client (BridgeIrcBot.urbit self') = None /\
  BridgeIrcBot.instance_channels self' = BridgeIrcBot.instance_channels self /\
  forall (c' : ServerConnection) (e' : Event) (text' : string),
    arguments e' !! 0%nat = Some text' ->
    BridgeIrcBot.matching self' e' <> [] ->
    BridgeIrcBot.on_pubmsg c' e' self'
    = (Raise (AttributeError "post_message"), self').
Proof.
  intros Hc Hf Harg Hm self'.
  assert (Hrun : BridgeIrcBot.on_pubmsg c e self =
            (match rest with
             | [] => Ok tt
             | _ :: _ => Raise (AttributeError "post_message")
             end,
             BridgeIrcBot.set_urbit
               {| urbit_client.client := None;
                  urbit_client.created :=
                    S (urbit_client.created (BridgeIrcBot.urbit self));
                  urbit_client.deleted :=
                    urbit_client.session q
                    :: urbit_client.deleted (BridgeIrcBot.urbit self);
                  urbit_client.posted :=
                    urbit_client.posted (BridgeIrcBot.urbit self);
                  urbit_client.post_calls :=
                    S (urbit_client.post_calls (BridgeIrcBot.urbit self));
                  urbit_client.decode_fails :=
                    urbit_client.decode_fails (BridgeIrcBot.urbit self) |}
               self)).
  { rewrite on_pubmsg_unfold, Hm. cbn [for_each].
    rewrite (bind_ok _ _ _ _ _
               (relay_one_decode_failure e text q p self Harg Hc Hf)).
    destruct rest as [| p' rest]; [reflexivity |].
    apply (relay_without_client e text p' rest _ Harg). reflexivity. }
  subst self'. rewrite Hrun. cbn [fst snd].
  repeat split.
  intros c' e' text' Harg' Hm'. rewrite on_pubmsg_unfold.
  destruct (BridgeIrcBot.matching _ e') as [| p' l]; [congruence |].
  apply (relay_without_client e' text' p' l _ Harg'). reflexivity.
Qed.

Lemma relay_stops_after_decode_failure_witness :
  let e := Sample.pubmsg "Alice!a@host" "#urbit" "hi" in
  let self := Sample.bridge Sample.first_fails in
  let self' := snd (BridgeIrcBot.on_pubmsg Sample.connection e self) in
  fst (BridgeIrcBot.on_pubmsg Sample.connection e self)
  = Raise (AttributeError "post_message") /\
  urbit_client.posted (BridgeIrcBot.urbit self') = [] /\
  urbit_client.post_calls (BridgeIrcBot.urbit self') = 1%nat /\
  urbit_client.client (BridgeIrcBot.urbit self') = None /\
  BridgeIrcBot.instance_channels self' = Sample.pairings /\
  forall (c' : ServerConnection) (e' : Event) (text' : string),
    arguments e' !! 0%nat = Some text' ->
    BridgeIrcBot.matching self' e' <> [] ->
    BridgeIrcBot.on_pubmsg c' e' self'
    = (Raise (AttributeError "post_message"), self').
Proof.
  exact (relay_stops_after_decode_failure Sample.connection
           (Sample.pubmsg "Alice!a@host" "#urbit" "hi")
           (Sample.bridge Sample.first_fails)
           {| urbit_client.session := 0 |} "hi"
           {| irc_channel := "#urbit"; resource_ship := "~zod";
              urbit_channel := "general" |}
           [ {| irc_channel := "#urbit"; resource_ship := "~bus";
                urbit_channel := "general" |} ]
           eq_refl eq_refl eq_refl eq_refl).
Defined.

End relay_properties.

(** * Further properties *)

(** ** The life of a reconnect strategy *)

Section history_facts.
Import ExponentialBackoff Reconnect History.

(** One call of [run], with or without a fired timer before it, by
    cases. *)
Lemma invoke_unfold (f : bool) (j : Q) (self : t) (sch : Scheduler) :
  invoke f j (self, sch) =
  run j (mk (min_interval self) (max_interval self)
            (if f then false else _check_scheduled self)
            (attempt_count self), sch).
Proof.
  destruct self as [mn mx flag n]. unfold invoke, bind.
  destruct f; reflexivity.
Qed.

(** Every timer costs the counter two values. *)
Lemma after_calls_counter (calls : list (bool * Q)) :
  forall s,
    1 + 2 * Z.of_nat (timers_set s) <= attempt_count (fst s) ->
    (timers_set s <= 3)%nat ->
    1 + 2 * Z.of_nat (timers_set (after_calls calls s))
      <= attempt_count (fst (after_calls calls s)) /\
    (timers_set (after_calls calls s) <= 3)%nat.
Proof.
  induction calls as [| [f j] calls IH]; intros [self sch] Hc Hn.
  - simpl. auto.
  - cbn [after_calls]. apply IH;
      rewrite invoke_unfold, run_unfold; cbv zeta;
      unfold timers_set, ceiling in *; cbn [fst snd] in *;
      cbn [attempt_count _check_scheduled min_interval max_interval];
      destruct (Z.gtb_spec (attempt_count self) 5);
      cbn [fst snd attempt_count execute_after_log];
      try lia;
      destruct (if f then false else _check_scheduled self);
      cbn [fst snd attempt_count execute_after_log length]; lia.
Qed.

End history_facts.

Section history_properties.
Import ExponentialBackoff Reconnect History.

(** X1.  A strategy sets at most three timers in its life, however it is
    constructed and however calls of [run] and fired timers follow each
    other; three are reached when each timer fires before the next
    call. *)
Theorem at_most_three_timers
    (min_attr max_attr : option Z) (self : t) (calls : list (bool * Q)) :
  init min_attr max_attr = Ok self ->
  (timers_set (after_calls calls (self, no_timers)) <= 3)%nat /\
  forall j, timers_set (after_calls (replicate 3 (true, j)) (self, no_timers))
            = 3%nat.
Proof.
  intros Hinit. destruct (init_asserts _ _ _ Hinit) as (_ & Hflag & Hcount).
  split.
  - apply after_calls_counter; unfold timers_set; simpl; lia.
  - intros j. destruct self as [mn mx flag n]. simpl in Hflag, Hcount.
    subst flag n. reflexivity.
Qed.

Lemma at_most_three_timers_witness :
  (timers_set (after_calls [(false, 1 # 2); (true, 1 # 2); (false, 1 # 2)]
                           (fresh, no_timers)) <= 3)%nat /\
  forall j, timers_set (after_calls (replicate 3 (true, j)) (fresh, no_timers))
            = 3%nat.
Proof.
  exact (at_most_three_timers None None fresh
           [(false, 1 # 2); (true, 1 # 2); (false, 1 # 2)] eq_refl).
Defined.

Lemma invoke_raises_iff (f : bool) (j : Q) (s : state) :
  is_raise (fst (invoke f j s)) = (attempt_count (fst s) >? ceiling).
Proof.
  destruct s as [self sch]. rewrite invoke_unfold, run_unfold. cbv zeta.
  cbn [attempt_count fst].
  destruct (attempt_count self >? ceiling); [reflexivity |].
  destruct (if f then false else _check_scheduled self); reflexivity.
Qed.

Lemma exhausted_for_good (calls : list (bool * Q)) :
  forall self sch,
    attempt_count self > ceiling ->
    Forall (eq exhausted) (invocations calls (self, sch)) /\
    snd (after_calls calls (self, sch)) = sch.
Proof.
  induction calls as [| [f j] calls IH]; intros self sch Hc.
  - split; [constructor | reflexivity].
  - cbn [invocations after_calls]. rewrite invoke_unfold, run_unfold.
    cbv zeta. cbn [attempt_count min_interval max_interval _check_scheduled].
    replace (attempt_count self >? ceiling) with true
      by (symmetry; apply Z.gtb_lt; lia).
    cbn [snd]. destruct (IH (mk (min_interval self) (max_interval self)
                               (if f then false else _check_scheduled self)
                               (attempt_count self + 1)) sch) as [H1 H2].
    { simpl. lia. }
    split; [constructor; [reflexivity | exact H1] | exact H2].
Qed.

(** X2.  Exhaustion is final: once a call of [run] has raised, every
    later call raises as well, with or without fired timers, and no
    further timer is set. *)
Theorem exhaustion_is_final
    (f : bool) (j : Q) (s : state) (calls : list (bool * Q)) :
  is_raise (fst (invoke f j s)) = true ->
  Forall (eq exhausted) (invocations calls (snd (invoke f j s))) /\
  snd (after_calls calls (snd (invoke f j s))) = snd s.
Proof.
  intros Hr. rewrite invoke_raises_iff in Hr. apply Z.gtb_lt in Hr.
  destruct s as [self sch]. cbn [fst snd] in *.
  rewrite invoke_unfold, run_unfold. cbv zeta.
  cbn [attempt_count min_interval max_interval _check_scheduled].
  replace (attempt_count self >? ceiling) with true
    by (symmetry; apply Z.gtb_lt; lia).
  cbn [snd]. apply exhausted_for_good. simpl. lia.
Qed.

Lemma exhaustion_is_final_witness :
  let s := after_calls (replicate 3 (true, 1 # 2)) (fresh, no_timers) in
  Forall (eq exhausted)
         (invocations [(false, 1 # 3); (true, 2 # 3)]
                      (snd (invoke true (1 # 2) s))) /\
  snd (after_calls [(false, 1 # 3); (true, 2 # 3)]
                   (snd (invoke true (1 # 2) s)))
  = snd s.
Proof.
  exact (exhaustion_is_final true (1 # 2)
           (after_calls (replicate 3 (true, 1 # 2)) (fresh, no_timers))
           [(false, 1 # 3); (true, 2 # 3)] eq_refl).
Defined.

(** X3.  A new timer is set only once the one before it has fired: the
    timers set by a series of calls are at most the timers fired in it,
    plus one when none was pending at the start. *)
Theorem one_pending_timer (calls : list (bool * Q)) (s : state) :
  (timers_set (after_calls calls s)
   <= timers_set s + timers_fired calls
      + (if _check_scheduled (fst s) then 0 else 1))%nat.
Proof.
  assert (H : forall calls s,
             (timers_set (after_calls calls s)
              + (if _check_scheduled (fst (after_calls calls s))
                 then 0 else 1)
              <= timers_set s + timers_fired calls
                 + (if _check_scheduled (fst s) then 0 else 1))%nat).
  { clear. induction calls as [| [f j] calls IH]; intros [self sch].
    - simpl. lia.
    - cbn [after_calls timers_fired].
      etransitivity; [apply IH |].
      rewrite invoke_unfold, run_unfold. cbv zeta.
      unfold timers_set.
      cbn [attempt_count min_interval max_interval _check_scheduled fst snd].
      destruct (attempt_count self >? ceiling);
        cbn [fst snd _check_scheduled execute_after_log];
        destruct f, (_check_scheduled self);
        cbn [fst snd _check_scheduled execute_after_log length]; lia. }
  specialize (H calls s). lia.
Qed.

End history_properties.

(** ** Construction *)

Section construction_properties.

(** X4.  The deprecated [reconnection_interval] argument is accepted
    only from 0 to 5, the class's [max_interval]: outside that range the
    constructor raises [AssertionError].  Inside it the bot starts with
    no channel, and every delay of its strategy is at least the interval
    given (and at most 4 unless that is 5). *)
Theorem reconnection_interval_range
    (interval : Z) (recon : ExponentialBackoff.t) :
  (interval < 0 \/ 5 < interval ->
   Construction.init (Some interval) recon = Raise AssertionError) /\
  (0 <= interval <= 5 ->
   exists bot,
     Construction.init (Some interval) recon = Ok bot /\
     SingleServerIRCBot.channels bot = ∅ /\
     forall (attempt : Z) (j : Q),
       unit_draw j ->
       interval
       <= ExponentialBackoff.interval (SingleServerIRCBot.recon bot) attempt j
       <= Z.max interval 4).
Proof.
  unfold Construction.init, ExponentialBackoff.init.
  unfold default, id, ExponentialBackoff.default_max_interval. split.
  - intros H.
    replace ((0 <=? interval) && (interval <=? 5)) with false;
      [reflexivity |].
    symmetry. apply andb_false_iff.
    destruct H; [left; apply Z.leb_gt | right; apply Z.leb_gt]; lia.
  - intros [H0 H5].
    replace ((0 <=? interval) && (interval <=? 5)) with true
      by (symmetry; apply andb_true_iff; split; apply Z.leb_le; lia).
    eexists. split; [reflexivity |]. split; [reflexivity |].
    intros attempt j Hj. cbn [SingleServerIRCBot.recon].
    pose proof (interval_bounds
                  (ExponentialBackoff.mk interval 5 false 1) attempt j Hj
                  H0 H5) as Hb.
    cbn [ExponentialBackoff.min_interval ExponentialBackoff.max_interval]
      in Hb.
    lia.
Qed.

End construction_properties.

(** ** More on the tracker *)

Section tracker_more.
Import SingleServerIRCBot Tracker Frame.

(** X5.  A quit event never raises.  It removes the nick, with its role
    flags, from every tracked channel that has it as a member and leaves
    the other channels exactly as they were; no channel is dropped, not
    even when it is the local identity that quits. *)
Theorem quit_removes_everywhere
    (c : ServerConnection) (e : Event) (self : t) :
  let nick := nick_of (source e) in
  exists self',
    _on_quit c e self = (Ok tt, self') /\
    recon self' = recon self /\
    forall name,
      match channels self !! name with
      | None => channels self' !! name = None
      | Some ch =>
          exists ch',
            channels self' !! name = Some ch' /\
            if Channel.has_user ch nick
            then removed nick ch ch'
            else ch' = ch
      end.
Proof.
  intros nick. rewrite _on_quit_unfold. eexists.
  split; [reflexivity |]. split; [reflexivity |].
  intros name. simpl. rewrite lookup_fmap.
  destruct (channels self !! name) as [ch |]; simpl; [| reflexivity].
  eexists. split; [reflexivity |]. fold nick.
  destruct (Channel.has_user ch nick); [| reflexivity].
  apply remove_user_removed.
Qed.

(** X6.  The local identity's own join starts the channel afresh:
    whatever the channel map held under that name, afterwards the
    channel has the local identity as its only member, no role flag and
    no mode. *)
Theorem own_join_starts_afresh
    (c : ServerConnection) (e : Event) (self : t) :
  nick_of (source e) = get_nickname c ->
  exists ch',
    _on_join c e self =
    (Ok tt,
     set_channels (<[IRCDict.transform_key (target e) := ch']> (channels self))
                  self) /\
    (forall n, Channel.has_user ch' n = true <-> same_nick n (get_nickname c)) /\
    (forall mode n, Channel.has_mode ch' mode n = false) /\
    Channel.modes ch' = ∅.
Proof.
  intros Hown. unfold _on_join. rewrite Hown, String.eqb_refl.
  unfold bind, channels_call, channels_setitem, channels_getitem, modify,
    bind, IRCDict.getitem, IRCDict.setitem. simpl.
  rewrite lookup_insert_eq. simpl. rewrite insert_insert_eq.
  eexists. split; [reflexivity |]. split; [| split].
  - intros n. unfold Channel.has_user, IRCDict.contains, Channel.add_user,
      IRCDict.setitem, IRCDict.transform_key, same_nick. simpl.
    rewrite bool_decide_eq_true, lookup_insert_is_Some.
    rewrite lookup_empty. split.
    + intros [H | [_ [? H]]]; [congruence | discriminate].
    + intros H. left. congruence.
  - intros mode n. reflexivity.
  - reflexivity.
Qed.

Lemma own_join_starts_afresh_witness :
  exists ch',
    _on_join Sample.connection (Sample.join "bridge!b@host" "#urbit")
             Sample.bot =
    (Ok tt,
     set_channels (<["#urbit" := ch']> (channels Sample.bot)) Sample.bot) /\
    (forall n, Channel.has_user ch' n = true <-> same_nick n "bridge") /\
    (forall mode n, Channel.has_mode ch' mode n = false) /\
    Channel.modes ch' = ∅.
Proof.
  exact (own_join_starts_afresh Sample.connection
           (Sample.join "bridge!b@host" "#urbit") Sample.bot eq_refl).
Defined.

Lemma remove_added_user (nick : string) (ch : Channel.t) :
  Channel.has_user ch nick = false ->
  (forall mode, Channel.has_mode ch mode nick = false) ->
  Channel.remove_user nick (Channel.add_user nick ch) = ch.
Proof.
  intros Hu Hm. destruct ch as [users mode_users modes].
  unfold Channel.remove_user, Channel.add_user, Channel.has_user,
    Channel.has_mode, IRCDict.contains, IRCDict.pop_default, IRCDict.setitem,
    IRCDict.transform_key in *. simpl in *.
  apply bool_decide_eq_false in Hu.
  f_equal.
  - rewrite delete_insert_eq. apply delete_id.
    destruct (users !! irc_lower nick); [exfalso; eauto | reflexivity].
  - rewrite <- (map_fmap_id mode_users) at 2.
    apply map_fmap_ext. intros mode d Hd. specialize (Hm mode).
    rewrite Hd in Hm. apply bool_decide_eq_false in Hm.
    unfold id. apply delete_id.
    destruct (d !! irc_lower nick); [exfalso; eauto | reflexivity].
Qed.

(** X7.  A join of someone who is not the local identity, followed by
    the same nick's part from the same channel, leaves the bot exactly
    as it was, provided the channel is tracked and the nick was neither
    a member nor the holder of a role flag there. *)
Theorem join_then_part_restores
    (c : ServerConnection) (ej ep : Event) (self : t) (ch : Channel.t) :
  source ep = source ej -> target ep = target ej ->
  nick_of (source ej) <> get_nickname c ->
  IRCDict.getitem (channels self) (target ej) = Ok ch ->
  Channel.has_user ch (nick_of (source ej)) = false ->
  (forall mode, Channel.has_mode ch mode (nick_of (source ej)) = false) ->
  (_on_join c ej ;; _on_part c ep) self = (Ok tt, self).
Proof.
  intros Hs Ht Hne Hch Hu Hm.
  unfold _on_join, _on_part. rewrite Hs, Ht.
  apply String.eqb_neq in Hne. rewrite Hne.
  unfold IRCDict.getitem in Hch.
  destruct (channels self !! IRCDict.transform_key (target ej))
    as [ch0 |] eqn:Hl; [| discriminate].
  injection Hch as ->.
  unfold bind, channels_call, channels_setitem, channels_getitem, modify,
    bind, ret, IRCDict.getitem, IRCDict.setitem. simpl.
  rewrite Hl. simpl. rewrite lookup_insert_eq. simpl.
  rewrite insert_insert_eq, remove_added_user by assumption.
  rewrite insert_id by exact Hl. destruct self. reflexivity.
Qed.

Lemma join_then_part_restores_witness :
  (_on_join Sample.connection (Sample.join "carol!c@host" "#urbit") ;;
   _on_part Sample.connection (Sample.part "carol!c@host" "#urbit"))
    Sample.bot
  = (Ok tt, Sample.bot).
Proof.
  apply (join_then_part_restores Sample.connection
           (Sample.join "carol!c@host" "#urbit")
           (Sample.part "carol!c@host" "#urbit")
           Sample.bot Sample.urbit_channel_state);
    try reflexivity.
  - vm_compute. discriminate.
  - intros mode. unfold Channel.has_mode. simpl.
    destruct (decide (mode = "o")) as [-> | Ho]; [reflexivity |].
    rewrite lookup_insert_ne by congruence.
    destruct (decide (mode = "v")) as [-> | Hv]; [reflexivity |].
    rewrite lookup_singleton_ne by congruence. reflexivity.
Defined.

End tracker_more.

Section frame_facts.
Import SingleServerIRCBot Tracker Frame.

Lemma adds_no_channel_ret {A} (a : A) : adds_no_channel (ret a).
Proof. intros self. auto. Qed.

Lemma adds_no_channel_raise {A} (e : exn) : adds_no_channel (@raise t A e).
Proof. intros self. auto. Qed.

Lemma adds_no_channel_bind {A B} (m : M t A) (k : A -> M t B) :
  adds_no_channel m -> (forall a, adds_no_channel (k a)) ->
  adds_no_channel (bind m k).
Proof.
  intros Hm Hk self. unfold bind. specialize (Hm self).
  destruct (m self) as [[a | e] self']; simpl in *; [| exact Hm].
  destruct Hm as (Hr & Hs & Hd). destruct (Hk a self') as (Hr' & Hs' & Hd').
  split; [congruence |]. split; [congruence |]. auto.
Qed.

Lemma adds_no_channel_delitem (name : string) :
  adds_no_channel (channels_delitem name).
Proof.
  intros self. unfold channels_delitem, IRCDict.delitem.
  destruct (channels self !! IRCDict.transform_key name); simpl; [| auto].
  split; [reflexivity |]. split; [reflexivity |].
  intros k Hk. apply lookup_delete_is_Some in Hk as [_ Hk]. exact Hk.
Qed.

Lemma adds_no_channel_call (name : string)
    (method : Channel.t -> Channel.t) :
  adds_no_channel (channels_call name method).
Proof.
  intros self.
  unfold channels_call, bind, channels_getitem, channels_setitem, modify,
    IRCDict.getitem, IRCDict.setitem.
  destruct (channels self !! IRCDict.transform_key name) eqn:Hl; simpl;
    [| auto].
  split; [reflexivity |]. split; [reflexivity |].
  intros k Hk. apply lookup_insert_is_Some' in Hk as [<- | Hk];
    [rewrite Hl; eauto | exact Hk].
Qed.

Lemma adds_no_channel_fmap (f : Channel.t -> Channel.t) (self : t) :
  forall name,
    is_Some (channels (set_channels (f <$> channels self) self) !! name) ->
    is_Some (channels self !! name).
Proof.
  intros name. simpl. rewrite lookup_fmap.
  destruct (channels self !! name); [eauto | intros [? ?]; discriminate].
Qed.

End frame_facts.

Section frame_properties.
Import SingleServerIRCBot Tracker Frame.

(** X8.  Membership events never touch the reconnect strategy or the
    scheduler, and the only way a channel comes to be tracked is the
    local identity's own join of it: after a join, part, kick, quit or
    nick-change event, returned or raised, every tracked channel was
    tracked before or is the one the local identity has just joined. *)
Theorem channels_come_from_own_joins
    (j : Q) (c : ServerConnection) (e : Event) (self : t) :
  membership_event e = true ->
  recon (snd (handle_event j c e self)) = recon self /\
  scheduler (snd (handle_event j c e self)) = scheduler self /\
  forall name,
    is_Some (channels (snd (handle_event j c e self)) !! name) ->
    is_Some (channels self !! name) \/ own_join c e name.
Proof.
  intros He. apply bool_decide_eq_true in He.
  assert (Hweak : forall m : M t unit,
             adds_no_channel m ->
             recon (snd (m self)) = recon self /\
             scheduler (snd (m self)) = scheduler self /\
             forall name,
               is_Some (channels (snd (m self)) !! name) ->
               is_Some (channels self !! name) \/ own_join c e name).
  { intros m Hm. destruct (Hm self) as (Hr & Hs & Hd). auto. }
  unfold handle_event, handler.
  repeat (apply elem_of_cons in He as [Hty | He]); rewrite ?Hty; simpl.
  - (* join *)
    unfold _on_join.
    destruct (String.eqb_spec (nick_of (source e)) (get_nickname c))
      as [Hown | Hother].
    + unfold bind, channels_call, channels_setitem, channels_getitem, modify,
        bind, IRCDict.getitem, IRCDict.setitem. simpl.
      rewrite lookup_insert_eq. simpl.
      split; [reflexivity |]. split; [reflexivity |].
      intros name Hn. rewrite insert_insert_eq in Hn.
      apply lookup_insert_is_Some' in Hn as [<- | Hn]; [| left; exact Hn].
      right. split; [exact Hty |]. split; [exact Hown | reflexivity].
    + apply Hweak. apply adds_no_channel_bind;
        [apply adds_no_channel_ret | intros _; apply adds_no_channel_call].
  - (* part *)
    apply Hweak. unfold _on_part. destruct (String.eqb _ _);
      [apply adds_no_channel_delitem | apply adds_no_channel_call].
  - (* kick *)
    apply Hweak. unfold _on_kick. apply adds_no_channel_bind.
    + unfold list_getitem. destruct (arguments e !! 0%nat);
        [apply adds_no_channel_ret | apply adds_no_channel_raise].
    + intros nick. destruct (String.eqb _ _);
        [apply adds_no_channel_delitem | apply adds_no_channel_call].
  - (* quit *)
    rewrite _on_quit_unfold. split; [reflexivity |]. split; [reflexivity |].
    intros name Hn. left. exact (adds_no_channel_fmap _ self name Hn).
  - (* nick *)
    rewrite _on_nick_unfold. split; [reflexivity |]. split; [reflexivity |].
    intros name Hn. left. exact (adds_no_channel_fmap _ self name Hn).
  - apply elem_of_nil in He. destruct He.
Qed.

Lemma channels_come_from_own_joins_witness :
  recon (snd (handle_event 0 Sample.connection
                (Sample.join "bridge!b@host" "#new") Sample.bot))
  = recon Sample.bot /\
  scheduler (snd (handle_event 0 Sample.connection
                    (Sample.join "bridge!b@host" "#new") Sample.bot))
  = scheduler Sample.bot /\
  forall name,
    is_Some (channels (snd (handle_event 0 Sample.connection
                              (Sample.join "bridge!b@host" "#new")
                              Sample.bot)) !! name) ->
    is_Some (channels Sample.bot !! name) \/
    own_join Sample.connection (Sample.join "bridge!b@host" "#new") name.
Proof.
  exact (channels_come_from_own_joins 0 Sample.connection
           (Sample.join "bridge!b@host" "#new") Sample.bot eq_refl).
Defined.

End frame_properties.

(** ** Name replies *)

Section namreply_facts.
Import SingleServerIRCBot Tracker NameReply.

Lemma append_char_nonempty (cur : string) (a : ascii) :
  (cur ++ String a "")%string <> "".
Proof. destruct cur; discriminate. Qed.

Lemma split_from_nonempty (s : string) :
  forall cur, Forall (fun nick => nick <> "") (split_from cur s).
Proof.
  induction s as [| a s IH]; intros cur; simpl.
  - destruct (String.eqb_spec cur ""); constructor; [assumption | constructor].
  - destruct (is_space a).
    + destruct (String.eqb_spec cur ""); [apply IH |].
      constructor; [assumption | apply IH].
    + apply IH.
Qed.

(** [split()] never yields an empty string. *)
Lemma py_split_nonempty (s : string) :
  Forall (fun nick => nick <> "") (py_split s).
Proof. apply split_from_nonempty. Qed.

(** One round of the loop on a tracked channel. *)
Lemma namreply_round (prefix : ascii -> option string) (channel : string)
    (a : ascii) (rest : string) (self : t) (ch : Channel.t) :
  channels self !! IRCDict.transform_key channel = Some ch ->
  (for_each (fst (strip prefix a rest)) (fun mode =>
     channels_call channel (set_mode mode (snd (strip prefix a rest)))) ;;
   channels_call channel (Channel.add_user (snd (strip prefix a rest)))) self
  = (Ok tt,
     set_channels
       (<[IRCDict.transform_key channel := entered prefix ch (String a rest)]>
          (channels self)) self).
Proof.
  intros Hch. unfold entered, strip.
  destruct (prefix a) as [mode |]; cbn [fst snd for_each foldl];
    unfold bind, ret, channels_call, channels_setitem, channels_getitem,
      modify, bind, IRCDict.getitem, IRCDict.setitem; simpl; rewrite Hch;
    simpl.
  - rewrite lookup_insert_eq. simpl. rewrite insert_insert_eq. reflexivity.
  - reflexivity.
Qed.

(** The whole loop on a tracked channel. *)
Lemma namreply_rounds (prefix : ascii -> option string) (channel : string)
    (nicks : list string) :
  Forall (fun nick => nick <> "") nicks ->
  forall (self : t) (ch : Channel.t),
    channels self !! IRCDict.transform_key channel = Some ch ->
    for_each nicks (fun nick =>
      match nick with
      | EmptyString => raise IndexError
      | String a rest =>
          let nick_modes := fst (strip prefix a rest) in
          let nick := snd (strip prefix a rest) in
          for_each nick_modes (fun mode =>
            channels_call channel (set_mode mode nick)) ;;
          channels_call channel (Channel.add_user nick)
      end) self
    = (Ok tt,
       set_channels
         (<[IRCDict.transform_key channel := foldl (entered prefix) ch nicks]>
            (channels self)) self).
Proof.
  induction 1 as [| nick nicks Hnick _ IH]; intros self ch Hch.
  - simpl. rewrite insert_id by exact Hch. destruct self. reflexivity.
  - cbn [for_each foldl]. destruct nick as [| a rest]; [congruence |].
    cbv zeta.
    rewrite (bind_ok _ _ _ _ _ (namreply_round prefix channel a rest self ch Hch)).
    rewrite (IH _ (entered prefix ch (String a rest)));
      [| simpl; apply lookup_insert_eq].
    simpl. rewrite insert_insert_eq. reflexivity.
Qed.

End namreply_facts.

Section namreply_rounds_facts.
Import SingleServerIRCBot Tracker NameReply.

Local Ltac open_channel :=
  unfold Channel.has_user, Channel.has_mode, Channel.add_user,
    IRCDict.contains, IRCDict.setitem, IRCDict.transform_key in *;
  cbn [Channel._users Channel.mode_users Channel.modes] in *.

Lemma has_user_set_mode (mode value : string) (ch : Channel.t) (x : string) :
  Channel.has_user (set_mode mode value ch) x = Channel.has_user ch x.
Proof. unfold set_mode. destruct (str_in mode user_modes); reflexivity. Qed.

Lemma has_mode_set_mode_grows (mode value : string) (ch : Channel.t)
    (m x : string) :
  Channel.has_mode ch m x = true ->
  Channel.has_mode (set_mode mode value ch) m x = true.
Proof.
  unfold set_mode. destruct (str_in mode user_modes); [| auto].
  open_channel. intros H.
  destruct (decide (mode = m)) as [-> | Hne].
  - rewrite lookup_insert_eq.
    destruct (Channel.mode_users ch !! m) as [d |]; [| discriminate].
    simpl. apply bool_decide_eq_true in H. apply bool_decide_eq_true.
    apply lookup_insert_is_Some'. auto.
  - rewrite lookup_insert_ne by exact Hne. exact H.
Qed.

Lemma has_mode_set_mode (mode value : string) (ch : Channel.t) :
  str_in mode user_modes = true ->
  Channel.has_mode (set_mode mode value ch) mode value = true.
Proof.
  intros Hu. unfold set_mode. rewrite Hu. open_channel.
  rewrite lookup_insert_eq. apply bool_decide_eq_true.
  rewrite lookup_insert_eq. eauto.
Qed.

Lemma has_user_add_user_grows (nick : string) (ch : Channel.t) (x : string) :
  Channel.has_user ch x = true ->
  Channel.has_user (Channel.add_user nick ch) x = true.
Proof.
  open_channel. rewrite !bool_decide_eq_true. intros H.
  apply lookup_insert_is_Some'. auto.
Qed.

(** A flag set for a nick that then joins keeps the invariant. *)
Lemma channel_invariant_set_mode_add_user (mode nick : string)
    (ch : Channel.t) :
  channel_invariant ch ->
  channel_invariant (Channel.add_user nick (set_mode mode nick ch)).
Proof.
  intros [_ Hflags]. split; [apply NoDup_fst_map_to_list |].
  intros m d k Hd Hk. unfold set_mode in *.
  destruct (str_in mode user_modes); open_channel.
  - apply lookup_insert_is_Some'.
    destruct (decide (mode = m)) as [-> | Hne].
    + rewrite lookup_insert_eq in Hd. injection Hd as <-.
      apply lookup_insert_is_Some' in Hk as [Hk | Hk]; [left; exact Hk |].
      right. destruct (Channel.mode_users ch !! m) as [d0 |] eqn:Hd0.
      * exact (Hflags m d0 k Hd0 Hk).
      * simpl in Hk. rewrite lookup_empty in Hk. destruct Hk; discriminate.
    + rewrite lookup_insert_ne in Hd by exact Hne.
      right. exact (Hflags m d k Hd Hk).
  - apply lookup_insert_is_Some'. right. exact (Hflags m d k Hd Hk).
Qed.

(** What the round for one listed nick does to the channel. *)
Lemma entered_facts (prefix : ascii -> option string) (ch : Channel.t)
    (a : ascii) (rest : string) :
  Channel.has_user (entered prefix ch (String a rest))
                   (listed prefix (String a rest)) = true /\
  (forall x, Channel.has_user ch x = true ->
             Channel.has_user (entered prefix ch (String a rest)) x = true) /\
  (forall m x, Channel.has_mode ch m x = true ->
               Channel.has_mode (entered prefix ch (String a rest)) m x = true) /\
  (forall mode, prefix a = Some mode -> str_in mode user_modes = true ->
                Channel.has_mode (entered prefix ch (String a rest)) mode rest
                = true) /\
  (channel_invariant ch ->
   channel_invariant (entered prefix ch (String a rest))).
Proof.
  unfold entered, listed, strip.
  destruct (prefix a) as [mode |]; cbn [fst snd foldl].
  - split; [apply has_user_add_user |].
    split; [intros x Hx; apply has_user_add_user_grows;
            rewrite has_user_set_mode; exact Hx |].
    split; [intros m x Hm; apply (has_mode_set_mode_grows mode rest ch m x Hm) |].
    split; [intros mode' [= <-] Hu; apply (has_mode_set_mode mode rest ch Hu) |].
    apply channel_invariant_set_mode_add_user.
  - split; [apply has_user_add_user |].
    split; [intros x Hx; apply has_user_add_user_grows; exact Hx |].
    split; [intros m x Hm; exact Hm |].
    split; [intros mode' [=] |].
    apply channel_invariant_add_user.
Qed.

(** What the whole loop does to the channel. *)
Lemma entered_all_facts (prefix : ascii -> option string)
    (nicks : list string) :
  Forall (fun nick => nick <> "") nicks ->
  forall ch,
    (forall nick, nick ∈ nicks ->
       Channel.has_user (foldl (entered prefix) ch nicks) (listed prefix nick)
       = true) /\
    (forall x, Channel.has_user ch x = true ->
       Channel.has_user (foldl (entered prefix) ch nicks) x = true) /\
    (forall m x, Channel.has_mode ch m x = true ->
       Channel.has_mode (foldl (entered prefix) ch nicks) m x = true) /\
    (forall a rest mode, String a rest ∈ nicks -> prefix a = Some mode ->
       str_in mode user_modes = true ->
       Channel.has_mode (foldl (entered prefix) ch nicks) mode rest = true) /\
    (channel_invariant ch ->
     channel_invariant (foldl (entered prefix) ch nicks)).
Proof.
  induction 1 as [| nick nicks Hnick _ IH]; intros ch.
  - simpl. split; [intros nick Hin; apply elem_of_nil in Hin; destruct Hin |].
    split; [auto |]. split; [auto |].
    split; [intros a rest mode Hin; apply elem_of_nil in Hin; destruct Hin |].
    auto.
  - destruct nick as [| a0 rest0]; [congruence |]. cbn [foldl].
    destruct (entered_facts prefix ch a0 rest0) as (E1 & E2 & E3 & E4 & E5).
    destruct (IH (entered prefix ch (String a0 rest0)))
      as (I1 & I2 & I3 & I4 & I5).
    split; [| split; [| split; [| split]]].
    + intros nick Hin. apply elem_of_cons in Hin as [-> | Hin];
        [apply I2, E1 | apply I1, Hin].
    + intros x Hx. apply I2, E2, Hx.
    + intros m x Hm. apply I3, E3, Hm.
    + intros a rest mode Hin Hp Hu.
      apply elem_of_cons in Hin as [[= -> ->] | Hin];
        [apply I3, (E4 mode Hp Hu) | apply (I4 a rest mode Hin Hp Hu)].
    + intros Hinv. apply I5, E5, Hinv.
Qed.

(** No round gets anywhere on a channel that is not tracked. *)
Lemma namreply_untracked (prefix : ascii -> option string) (channel : string)
    (nick : string) (nicks : list string) (self : t) :
  nick <> "" ->
  channels self !! IRCDict.transform_key channel = None ->
  for_each (nick :: nicks) (fun nick =>
    match nick with
    | EmptyString => raise IndexError
    | String a rest =>
        let nick_modes := fst (strip prefix a rest) in
        let nick := snd (strip prefix a rest) in
        for_each nick_modes (fun mode =>
          channels_call channel (set_mode mode nick)) ;;
        channels_call channel (Channel.add_user nick)
    end) self
  = (Raise (KeyError channel), self).
Proof.
  intros Hnick Hch. destruct nick as [| a rest]; [congruence |].
  cbn [for_each]. cbv zeta. unfold strip.
  destruct (prefix a); cbn [fst snd for_each];
    unfold bind, ret, channels_call, channels_getitem, bind,
      IRCDict.getitem; rewrite Hch; reflexivity.
Qed.

End namreply_rounds_facts.

Section namreply_with_facts.
Import SingleServerIRCBot Tracker NameReply.

Variable split : string -> list string.
Variable prefix : ascii -> option string.

(** The channel ["*"]: the handler returns before it splits. *)
Lemma namreply_with_star (c : ServerConnection)
    (ch_type nick_list : string) (self : t) :
  _on_namreply_with split prefix c ch_type "*" nick_list self = (Ok tt, self).
Proof. reflexivity. Qed.

(** No nick: the loop has no round. *)
Lemma namreply_with_no_nick (c : ServerConnection)
    (ch_type channel nick_list : string) (self : t) :
  split nick_list = [] ->
  _on_namreply_with split prefix c ch_type channel nick_list self
  = (Ok tt, self).
Proof.
  intros Hnone. unfold _on_namreply_with. rewrite Hnone.
  destruct (String.eqb channel "*"); reflexivity.
Qed.

(** A nick for a channel that is not tracked: the first round raises. *)
Lemma namreply_with_untracked (c : ServerConnection)
    (ch_type channel nick_list : string) (self : t) :
  channel <> "*" ->
  Forall (fun nick => nick <> "") (split nick_list) ->
  split nick_list <> [] ->
  channels self !! IRCDict.transform_key channel = None ->
  _on_namreply_with split prefix c ch_type channel nick_list self
  = (Raise (KeyError channel), self).
Proof.
  intros Hne Hall Hnicks Hch. unfold _on_namreply_with.
  apply String.eqb_neq in Hne. rewrite Hne.
  destruct (split nick_list) as [| nick nicks]; [congruence |].
  apply namreply_untracked; [| exact Hch].
  apply Forall_cons in Hall as [H _]. exact H.
Qed.

(** A tracked channel: every round returns. *)
Lemma namreply_with_tracked (c : ServerConnection)
    (ch_type channel nick_list : string) (self : t) (ch : Channel.t) :
  channel <> "*" ->
  Forall (fun nick => nick <> "") (split nick_list) ->
  channels self !! IRCDict.transform_key channel = Some ch ->
  _on_namreply_with split prefix c ch_type channel nick_list self
  = (Ok tt,
     set_channels
       (<[IRCDict.transform_key channel :=
            foldl (entered prefix) ch (split nick_list)]> (channels self))
       self).
Proof.
  intros Hne Hall Hch. unfold _on_namreply_with.
  apply String.eqb_neq in Hne. rewrite Hne.
  pose proof (namreply_rounds prefix channel _ Hall self ch Hch) as Hrounds.
  cbv zeta iota in Hrounds |- *. rewrite Hrounds. reflexivity.
Qed.

End namreply_with_facts.

Section namreply_properties.
Import SingleServerIRCBot Tracker NameReply.

(** The no-break space and the next-line character split a nick list as
    the space does. *)
Lemma py_split_beyond_ascii :
  py_split ("dave" ++ String "160"%char "erin") = ["dave"; "erin"] /\
  py_split ("dave" ++ String "133"%char "erin") = ["dave"; "erin"] /\
  py_split (String "160"%char "") = [].
Proof. repeat split. Qed.

(** X9.  Whatever [str.split] makes of the nick list: a name reply for
    the channel ["*"] (no visible channel), or one whose nick list holds
    no nick, changes nothing and raises nothing, even when the channel
    is not tracked.  A name reply that lists a nick (none of them empty,
    as [split] has it) for a channel that is not tracked raises
    [KeyError] for the channel and changes nothing. *)
Theorem namreply_edges
    (split : string -> list string)
    (prefix : ascii -> option string) (c : ServerConnection)
    (ch_type channel nick_list : string) (self : t) :
  (channel = "*" ->
   _on_namreply_with split prefix c ch_type channel nick_list self
   = (Ok tt, self)) /\
  (split nick_list = [] ->
   _on_namreply_with split prefix c ch_type channel nick_list self
   = (Ok tt, self)) /\
  (channel <> "*" ->
   Forall (fun nick => nick <> "") (split nick_list) ->
   split nick_list <> [] ->
   channels self !! IRCDict.transform_key channel = None ->
   _on_namreply_with split prefix c ch_type channel nick_list self
   = (Raise (KeyError channel), self)).
Proof.
  split; [| split].
  - intros ->. apply namreply_with_star.
  - apply namreply_with_no_nick.
  - apply namreply_with_untracked.
Qed.

Lemma namreply_edges_witness :
  _on_namreply_with py_split default_prefix Sample.connection "=" "*"
                    "@dave erin" Sample.bot
  = (Ok tt, Sample.bot) /\
  _on_namreply_with py_split default_prefix Sample.connection "=" "#nowhere"
                    (String "160"%char " ") Sample.bot
  = (Ok tt, Sample.bot) /\
  _on_namreply_with py_split default_prefix Sample.connection "=" "#nowhere"
                    "@dave erin" Sample.bot
  = (Raise (KeyError "#nowhere"), Sample.bot).
Proof.
  split; [| split].
  - apply (proj1 (namreply_edges py_split default_prefix Sample.connection
                    "=" "*" "@dave erin" Sample.bot)).
    reflexivity.
  - apply (proj1 (proj2 (namreply_edges py_split default_prefix
                           Sample.connection "=" "#nowhere"
                           (String "160"%char " ") Sample.bot))).
    reflexivity.
  - apply (proj2 (proj2 (namreply_edges py_split default_prefix
                           Sample.connection "=" "#nowhere" "@dave erin"
                           Sample.bot))).
    + discriminate.
    + apply py_split_nonempty.
    + intros Hnone. cbv in Hnone. discriminate Hnone.
    + reflexivity.
Defined.

(** X10.  Whatever [str.split] makes of the nick list, no nick of it
    being empty: a name reply for a tracked channel returns and changes
    that channel only: every listed nick, without its prefix character,
    is a member afterwards; a nick listed with a prefix character whose
    mode is a role flag holds that flag; and whoever was a member or
    held a flag before still does. *)
Theorem namreply_enters_the_listed
    (split : string -> list string)
    (prefix : ascii -> option string) (c : ServerConnection)
    (ch_type channel nick_list : string) (self : t) (ch : Channel.t) :
  Forall (fun nick => nick <> "") (split nick_list) ->
  channel <> "*" ->
  IRCDict.getitem (channels self) channel = Ok ch ->
  exists ch',
    _on_namreply_with split prefix c ch_type channel nick_list self =
    (Ok tt,
     set_channels (<[IRCDict.transform_key channel := ch']> (channels self))
                  self) /\
    (forall nick, nick ∈ split nick_list ->
       Channel.has_user ch' (listed prefix nick) = true) /\
    (forall a rest mode,
       String a rest ∈ split nick_list -> prefix a = Some mode ->
       str_in mode user_modes = true ->
       Channel.has_mode ch' mode rest = true) /\
    (forall x, Channel.has_user ch x = true -> Channel.has_user ch' x = true) /\
    (forall m x, Channel.has_mode ch m x = true ->
       Channel.has_mode ch' m x = true).
Proof.
  intros Hall Hne Hch. unfold IRCDict.getitem in Hch.
  destruct (channels self !! IRCDict.transform_key channel) as [ch0 |] eqn:Hl;
    [| discriminate].
  injection Hch as ->.
  exists (foldl (entered prefix) ch (split nick_list)).
  rewrite (namreply_with_tracked split prefix c ch_type channel nick_list
             self ch Hne Hall Hl).
  destruct (entered_all_facts prefix _ Hall ch) as (H1 & H2 & H3 & H4 & _).
  auto.
Qed.

Lemma namreply_enters_the_listed_witness :
  exists ch',
    _on_namreply_with py_split default_prefix Sample.connection "=" "#urbit"
                      ("@dave" ++ String "160"%char "+erin  frank")
                      Sample.bot =
    (Ok tt,
     set_channels (<["#urbit" := ch']> (channels Sample.bot)) Sample.bot) /\
    (forall nick,
       nick ∈ py_split ("@dave" ++ String "160"%char "+erin  frank") ->
       Channel.has_user ch' (listed default_prefix nick) = true) /\
    (forall a rest mode,
       String a rest
         ∈ py_split ("@dave" ++ String "160"%char "+erin  frank") ->
       default_prefix a = Some mode ->
       str_in mode user_modes = true ->
       Channel.has_mode ch' mode rest = true) /\
    (forall x, Channel.has_user Sample.urbit_channel_state x = true ->
               Channel.has_user ch' x = true) /\
    (forall m x, Channel.has_mode Sample.urbit_channel_state m x = true ->
       Channel.has_mode ch' m x = true).
Proof.
  apply (namreply_enters_the_listed py_split default_prefix Sample.connection
           "=" "#urbit" ("@dave" ++ String "160"%char "+erin  frank")
           Sample.bot Sample.urbit_channel_state).
  - apply py_split_nonempty.
  - discriminate.
  - reflexivity.
Defined.

(** X11.  A name reply keeps the tracker's invariant, whether it returns
    or raises: no channel lists a nick twice, and every holder of a role
    flag is a member, the flag of a listed nick being set just before
    the nick is added. *)
Theorem namreply_keeps_invariant
    (prefix : ascii -> option string) (c : ServerConnection)
    (ch_type channel nick_list : string) (self : t) :
  invariant self ->
  invariant (snd (_on_namreply prefix c ch_type channel nick_list self)).
Proof.
  intros Hinv. unfold _on_namreply.
  destruct (String.eqb_spec channel "*") as [-> | Hne].
  - rewrite namreply_with_star. exact Hinv.
  - destruct (channels self !! IRCDict.transform_key channel) as [ch |] eqn:Hl.
    + rewrite (namreply_with_tracked py_split prefix c ch_type channel
                 nick_list self ch Hne (py_split_nonempty nick_list) Hl).
      simpl. apply invariant_set_channels. intros k c' Hk.
      apply lookup_insert_Some in Hk as [[_ <-] | [_ Hk]];
        [| exact (Hinv _ _ Hk)].
      apply (entered_all_facts prefix _ (py_split_nonempty nick_list) ch).
      exact (Hinv _ _ Hl).
    + destruct (py_split nick_list) as [| nick nicks] eqn:Hsplit.
      * rewrite (namreply_with_no_nick py_split prefix c ch_type channel
                   nick_list self Hsplit).
        exact Hinv.
      * rewrite (namreply_with_untracked py_split prefix c ch_type channel
                   nick_list self Hne (py_split_nonempty nick_list)
                   ltac:(rewrite Hsplit; discriminate) Hl).
        exact Hinv.
Qed.

Lemma namreply_keeps_invariant_witness :
  invariant (snd (_on_namreply default_prefix Sample.connection "=" "#urbit"
                               "@dave +erin  frank" Sample.bot)).
Proof.
  exact (namreply_keeps_invariant default_prefix Sample.connection "=" "#urbit"
           "@dave +erin  frank" Sample.bot invariant_sample_bot).
Defined.

End namreply_properties.

(** ** Draining the queue *)

Section drain_facts.
Import BridgeIrcBot Drain.

(** [check_queue] is the round with a [privmsg] that returns. *)
Lemma check_queue_returns (self : t) :
  check_queue self = check_queue_with (fun _ _ => Ok tt) self.
Proof.
  unfold check_queue, check_queue_with, bind, get, put.
  destruct (message_queue self); reflexivity.
Qed.

Lemma check_queue_with_cons (privmsg : string -> string -> Result unit)
    (self : t) (data : string * string) (rest : list (string * string)) :
  message_queue self = data :: rest ->
  check_queue_with privmsg self =
  (privmsg (fst data) (snd data),
   {| instance_channels := instance_channels self;
      message_queue := rest;
      urbit := urbit self;
      privmsg_log := privmsg_log self ++ [data] |}).
Proof.
  intros Hq. unfold check_queue_with, bind, get, put. rewrite Hq.
  destruct data. reflexivity.
Qed.

Lemma check_queue_with_nil (privmsg : string -> string -> Result unit)
    (self : t) :
  message_queue self = [] -> check_queue_with privmsg self = (Ok tt, self).
Proof.
  intros Hq. unfold check_queue_with, bind, get. rewrite Hq. reflexivity.
Qed.

Lemma polls_conserve (privmsg : string -> string -> Result unit) (n : nat) :
  forall self,
    (privmsg_log (snd (polls n privmsg self))
       ++ message_queue (snd (polls n privmsg self)))%list
    = (privmsg_log self ++ message_queue self)%list /\
    urbit (snd (polls n privmsg self)) = urbit self /\
    instance_channels (snd (polls n privmsg self)) = instance_channels self.
Proof.
  induction n as [| n IH]; intros self; [simpl; auto |].
  cbn [polls]. unfold bind.
  destruct (message_queue self) as [| data rest] eqn:Hq.
  - rewrite (check_queue_with_nil privmsg self Hq).
    destruct (IH self) as (H1 & H2 & H3). rewrite Hq in H1. auto.
  - rewrite (check_queue_with_cons privmsg self data rest Hq).
    destruct (privmsg (fst data) (snd data)).
    + destruct (IH {| instance_channels := instance_channels self;
                      message_queue := rest;
                      urbit := urbit self;
                      privmsg_log := privmsg_log self ++ [data] |})
        as (H1 & H2 & H3).
      cbn [privmsg_log message_queue urbit instance_channels] in *.
      rewrite H1, <- app_assoc. auto.
    + cbn [snd privmsg_log message_queue urbit instance_channels].
      rewrite <- app_assoc. auto.
Qed.

Lemma polls_drain (privmsg : string -> string -> Result unit) :
  (forall target text, privmsg target text = Ok tt) ->
  forall (q : list (string * string)) (self : t),
    message_queue self = q ->
    polls (length q) privmsg self =
    (Ok tt,
     {| instance_channels := instance_channels self;
        message_queue := [];
        urbit := urbit self;
        privmsg_log := privmsg_log self ++ q |}).
Proof.
  intros Hok. induction q as [| data q IH]; intros self Hq.
  - simpl. unfold ret. rewrite app_nil_r. destruct self. simpl in Hq.
    subst. reflexivity.
  - cbn [length polls]. unfold bind.
    rewrite (check_queue_with_cons privmsg self data q Hq), Hok.
    rewrite IH by reflexivity. simpl. rewrite <- app_assoc. reflexivity.
Qed.

End drain_facts.

Section drain_properties.
Import BridgeIrcBot Drain.

(** X12.  However many rounds of [check_queue] run and whatever
    [privmsg] does, the messages handed to [privmsg] followed by the
    messages still queued are the messages that were handed over and
    queued at the start, in the same order: a message is handed over at
    most once and none overtakes another.  A round takes its message
    off the queue before [privmsg] is called, so a message on which
    [privmsg] raises is gone from the queue when the rounds end with
    that exception. *)
Theorem polls_hand_over_in_order
    (privmsg : string -> string -> Result unit) (n : nat) (self : t) :
  (privmsg_log (snd (polls n privmsg self))
     ++ message_queue (snd (polls n privmsg self)))%list
  = (privmsg_log self ++ message_queue self)%list /\
  (forall data rest e,
      message_queue self = data :: rest ->
      privmsg (fst data) (snd data) = Raise e ->
      fst (polls (S n) privmsg self) = Raise e /\
      message_queue (snd (polls (S n) privmsg self)) = rest /\
      privmsg_log (snd (polls (S n) privmsg self))
      = (privmsg_log self ++ [data])%list).
Proof.
  split; [apply polls_conserve |].
  intros data rest e Hq Hraise. cbn [polls]. unfold bind.
  rewrite (check_queue_with_cons privmsg self data rest Hq), Hraise.
  auto.
Qed.

(** X13.  From Urbit to IRC: when the listener has handled a message
    and [privmsg] returns, as many rounds of [check_queue] as the shared
    queue holds messages empty it and hand over, after what was queued
    before, one message per pairing that matches the host ship and the
    resource name, addressed to that pairing's IRC channel, with the
    text ["author: text"]. *)
Theorem urbit_message_reaches_irc
    (privmsg : string -> string -> Result unit)
    (message : urbit_bot.Message) (listener : urbit_bot.t) (self : t) :
  (forall target text, privmsg target text = Ok tt) ->
  message_queue self
  = urbit_bot.queue (snd (urbit_bot.urbit_message_handler message listener)) ->
  polls (length (message_queue self)) privmsg self =
  (Ok tt,
   {| instance_channels := instance_channels self;
      message_queue := [];
      urbit := urbit self;
      privmsg_log :=
        privmsg_log self ++ urbit_bot.queue listener ++
        map (fun p => (irc_channel p,
                       urbit_bot.author message ++ ": "
                         ++ urbit_bot.full_text message))
            (filter (urbit_bot.paired message)
                    (urbit_bot.instance_channels listener)) |}).
Proof.
  intros Hok Hq.
  rewrite (polls_drain privmsg Hok (message_queue self) self eq_refl).
  rewrite Hq, urbit_message_handler_unfold. destruct listener as [ic qu].
  rewrite enqueue_paired. reflexivity.
Qed.

Lemma urbit_message_reaches_irc_witness :
  let self :=
    {| instance_channels := Sample.pairings;
       message_queue := [("#urbit", "~sampel: hello")];
       urbit := urbit_client.new Sample.never_fails;
       privmsg_log := [] |} in
  polls 1 (fun _ _ => Ok tt) self =
  (Ok tt,
   {| instance_channels := Sample.pairings;
      message_queue := [];
      urbit := urbit_client.new Sample.never_fails;
      privmsg_log := [("#urbit", "~sampel: hello")] |}).
Proof.
  exact (urbit_message_reaches_irc (fun _ _ => Ok tt) Sample.urbit_message
           Sample.listener
           {| instance_channels := Sample.pairings;
              message_queue := [("#urbit", "~sampel: hello")];
              urbit := urbit_client.new Sample.never_fails;
              privmsg_log := [] |}
           (fun _ _ => eq_refl) eq_refl).
Defined.

End drain_properties.

(** ** The welcome *)

Section welcome_facts.
Import irc_bridge.

Lemma append_each {A B} (f : A -> B) (xs : list A) :
  forall acc : list B,
    foldl (fun l x => (l ++ [f x])%list) acc xs = (acc ++ map f xs)%list.
Proof.
  induction xs as [| x xs IH]; intros acc; simpl.
  - rewrite app_nil_r. reflexivity.
  - rewrite IH, <- app_assoc. reflexivity.
Qed.

Lemma channel_list_init (inst : Instance) :
  channel_list (init inst) = map irc_channel (channels inst).
Proof. unfold init. simpl. apply (append_each irc_channel _ []). Qed.

Lemma join_each (channels : list string) :
  forall log : list string,
    for_each channels
      (fun channel => modify (fun log : list string => (log ++ [channel])%list))
      log
    = (Ok tt, (log ++ channels)%list).
Proof.
  induction channels as [| ch channels IH]; intros log; simpl.
  - rewrite app_nil_r. reflexivity.
  - unfold bind, modify. rewrite IH, <- app_assoc. reflexivity.
Qed.

Lemma matching_nonempty (l : list Pairing) (channel : string) :
  filter (fun chan => irc_channel chan = channel) l <> [] <->
  channel ∈ map irc_channel l.
Proof.
  induction l as [| p l IH]; simpl.
  - split; [intros H; exfalso; apply H; reflexivity
           | intros H; apply elem_of_nil in H; destruct H].
  - rewrite filter_cons, elem_of_cons.
    destruct (decide (irc_channel p = channel)) as [Heq | Hne].
    + split; [auto | discriminate].
    + rewrite IH. split; [auto | intros [H | H]; [congruence | exact H]].
Qed.

End welcome_facts.

Section welcome_properties.
Import irc_bridge.

(** X14.  On the welcome the bot joins the IRC channel of every
    configured pairing, in the order of the configuration and once per
    pairing, so the channels it joins are exactly the channels whose
    public messages [on_pubmsg] relays.  With no pairing configured the
    welcome raises [ircBotException] and joins nothing. *)
Theorem welcome_joins_the_paired_channels
    (inst : Instance) (log : list string) :
  (channels inst = [] ->
   on_welcome (channel_list (init inst)) log
   = (Raise (ircBotException "No channels passed"), log)) /\
  (channels inst <> [] ->
   on_welcome (channel_list (init inst)) log
   = (Ok tt, (log ++ map irc_channel (channels inst))%list)) /\
  (forall mq urbit e,
      BridgeIrcBot.matching (bridge_bot (init inst) mq urbit) e <> [] <->
      target e ∈ channel_list (init inst)).
Proof.
  rewrite channel_list_init. unfold on_welcome. split; [| split].
  - intros ->. reflexivity.
  - intros Hne. destruct (channels inst) as [| p l] eqn:Hc; [congruence |].
    cbn [map length]. cbn [Nat.ltb Nat.leb]. apply join_each.
  - intros mq urbit e. unfold BridgeIrcBot.matching, bridge_bot. simpl.
    apply matching_nonempty.
Qed.

End welcome_properties.

(** ** CTCP requests *)

Section ctcp_properties.
Import Ctcp.

(** X15.  A CTCP request is answered at most once and only to the nick
    that sent it; a PING with an argument is answered with that
    argument.  The handler raises only [IndexError], and exactly for a
    request without arguments or a [DCC] request without a second
    argument; for every other request it returns. *)
Theorem ctcp_answers
    (version : string) (c : ServerConnection) (e : Event)
    (log : list (string * string)) :
  ((snd (on_ctcp version c e log) = log) \/
   (exists text,
       snd (on_ctcp version c e log)
       = (log ++ [(nick_of (source e), text)])%list)) /\
  (forall arg rest,
      arguments e = "PING" :: arg :: rest ->
      on_ctcp version c e log
      = (Ok tt,
         (log ++ [(nick_of (source e), ("PING " ++ arg)%string)])%list)) /\
  (fst (on_ctcp version c e log) = Raise IndexError <->
   arguments e = [] \/ arguments e = ["DCC"]) /\
  (fst (on_ctcp version c e log) = Ok tt \/
   fst (on_ctcp version c e log) = Raise IndexError).
Proof.
  unfold on_ctcp, bind, list_getitem, ctcp_reply, on_dccchat, modify, ret,
    raise.
  destruct (arguments e) as [| a0 rest] eqn:Ha; simpl.
  { split; [auto |]. split; [intros ? ? [=] |]. split; [tauto | auto]. }
  destruct (String.eqb_spec a0 "VERSION") as [-> | Hv]; simpl.
  { split; [right; eauto |]. split; [intros ? ? [=] |].
    split; [| auto].
    split; [discriminate | intros [[=] | [=]]]. }
  destruct (String.eqb_spec a0 "PING") as [-> | Hp]; simpl.
  { destruct rest as [| a1 rest']; simpl.
    - split; [auto |]. split; [intros ? ? [=] |].
      split; [| auto]. split; [discriminate | intros [[=] | [=]]].
    - split; [right; eauto |].
      split; [intros arg r [= <- <-]; reflexivity |].
      split; [| auto]. split; [discriminate | intros [[=] | [=]]]. }
  destruct (String.eqb_spec a0 "DCC") as [-> | Hd]; simpl.
  { destruct rest as [| a1 rest']; simpl.
    - split; [auto |]. split; [intros ? ? [=] |]. split; [tauto | auto].
    - destruct (String.eqb (str_before " " a1) "CHAT"); simpl;
        (split; [auto |]; split; [intros ? ? [=] |];
         split; [| auto]; split; [discriminate | intros [[=] | [=]]]). }
  split; [auto |]. split; [intros ? ? [= ? ?]; congruence |].
  split; [| auto]. split; [discriminate | intros [[=] | [= ? ?]]; congruence].
Qed.

End ctcp_properties.

(** ** The server list *)

Section ring_facts.
Import Servers Ring.
Context {A : Type}.

Lemma mod_succ (k n : nat) :
  (0 < n)%nat ->
  (S k mod n = if (n <=? S (k mod n))%nat then 0 else S (k mod n))%nat.
Proof.
  intros Hn. pose proof (Nat.div_mod_eq k n) as Hdm.
  pose proof (Nat.mod_upper_bound k n ltac:(lia)) as Hlt.
  destruct (Nat.leb_spec n (S (k mod n))).
  - symmetry. apply (Nat.mod_unique (S k) n (S (k / n)) 0); nia.
  - symmetry. apply (Nat.mod_unique (S k) n (k / n) (S (k mod n))); lia.
Qed.

Lemma cycle_next_at (specs : list A) (k : nat) (c : cycle) :
  (0 < length specs)%nat -> cycle_at specs k c ->
  exists item c',
    cycle_next c = Some (item, c') /\
    specs !! (k mod length specs)%nat = Some item /\
    cycle_at specs (S k) c'.
Proof.
  intros Hn [(Hk & Hit & Hsaved & Hidx) | (Hk & Hit & Hsaved & Hidx)].
  - destruct (decide (k < length specs)%nat) as [Hlt | Hge].
    + destruct (lookup_lt_is_Some_2 specs k Hlt) as [item Hitem].
      exists item. eexists. unfold cycle_next. rewrite Hit.
      rewrite (drop_S _ _ _ Hitem). split; [reflexivity |].
      rewrite Nat.mod_small by exact Hlt. split; [exact Hitem |].
      left. simpl. split; [lia |]. split; [reflexivity |].
      split; [| exact Hidx]. rewrite Hsaved. symmetry.
      apply take_S_r. exact Hitem.
    + assert (k = length specs) as -> by lia.
      destruct (lookup_lt_is_Some_2 specs 0 Hn) as [item Hitem].
      exists item. eexists. unfold cycle_next, replay. rewrite Hit.
      rewrite drop_all. rewrite Hsaved, firstn_all, Hidx, Hitem.
      split; [reflexivity |].
      rewrite Nat.Div0.mod_same. split; [exact Hitem |].
      right. simpl. split; [lia |]. split; [reflexivity |].
      split; [reflexivity |].
      rewrite (mod_succ _ _ Hn), Nat.Div0.mod_same. reflexivity.
  - pose proof (Nat.mod_upper_bound k (length specs) ltac:(lia)) as Hlt.
    destruct (lookup_lt_is_Some_2 specs _ Hlt) as [item Hitem].
    exists item. eexists. unfold cycle_next, replay.
    rewrite Hit, Hsaved, Hidx, Hitem. split; [reflexivity |].
    split; [reflexivity |].
    right. simpl. split; [lia |]. split; [reflexivity |].
    split; [reflexivity |]. symmetry. apply mod_succ. exact Hn.
Qed.

Lemma peek_at (specs : list A) (k : nat) (p : peekable) :
  (0 < length specs)%nat -> peekable_at specs k p ->
  exists item p',
    peek p = Some (item, p') /\
    specs !! (k mod length specs)%nat = Some item /\
    peekable_at specs k p'.
Proof.
  intros Hn [[Hc Hat] | (item & Hitem & Hc & Hat)]; unfold peek; rewrite Hc.
  - destruct (cycle_next_at specs k _ Hn Hat) as (item & c' & -> & Hitem & Hat').
    exists item. eexists. split; [reflexivity |]. split; [exact Hitem |].
    right. exists item. auto.
  - exists item, p. split; [reflexivity |]. split; [exact Hitem |].
    right. exists item. auto.
Qed.

Lemma peekable_next_at (specs : list A) (k : nat) (p : peekable) :
  (0 < length specs)%nat -> peekable_at specs k p ->
  exists item p',
    peekable_next p = Some (item, p') /\ peekable_at specs (S k) p'.
Proof.
  intros Hn [[Hc Hat] | (item & Hitem & Hc & Hat)];
    unfold peekable_next; rewrite Hc.
  - destruct (cycle_next_at specs k _ Hn Hat) as (item & c' & -> & _ & Hat').
    exists item. eexists. split; [reflexivity |]. left. auto.
  - exists item. eexists. split; [reflexivity |]. left. auto.
Qed.

Lemma peeks_at (specs : list A) (steps : list bool) :
  (0 < length specs)%nat ->
  forall k p,
    peekable_at specs k p ->
    exists items,
      peeks steps p = Some items /\ map Some items = ring specs k steps.
Proof.
  intros Hn. induction steps as [| [|] steps IH]; intros k p Hat.
  - exists []. auto.
  - destruct (peek_at specs k p Hn Hat) as (item & p' & Hp & Hitem & Hat').
    destruct (IH k p' Hat') as (items & Hitems & Hring).
    exists (item :: items). cbn [peeks ring map].
    rewrite Hp, Hitems, Hitem, Hring. auto.
  - destruct (peekable_next_at specs k p Hn Hat) as (item & p' & Hp & Hat').
    destruct (IH (S k) p' Hat') as (items & Hitems & Hring).
    exists items. cbn [peeks ring]. rewrite Hp. auto.
Qed.

End ring_facts.

Section ring_properties.
Import Servers Ring.

(** X16.  The bot's servers, [peekable(cycle(specs))], go round in a
    ring: however peeks and moves to the next server follow each other,
    every peek returns the server at the place the moves made so far
    lead to, counted round the list, and peeking moves nothing.  With an
    empty list the first peek or move raises [StopIteration]. *)
Theorem servers_go_round {A : Type} (specs : list A) (steps : list bool) :
  (specs <> [] ->
   exists items,
     peeks steps (peekable_of (cycle_of specs)) = Some items /\
     map Some items = ring specs 0 steps) /\
  (specs = [] -> steps <> [] ->
   peeks steps (peekable_of (cycle_of specs)) = None).
Proof.
  split.
  - intros Hne. apply peeks_at.
    + destruct specs; [congruence | simpl; lia].
    + left. split; [reflexivity |]. left. simpl.
      split; [lia |]. rewrite drop_0, take_0. auto.
  - intros -> Hsteps. destruct steps as [| [|] steps]; [congruence | |];
      reflexivity.
Qed.

End ring_properties.

(** ** Connecting and reconnecting *)

Section session_properties.
Import Session.

(** X17.  A bot that cannot reach any of its servers gives up after two
    connection attempts: the one [start] makes and one retry on the next
    server of the ring.  The first timer's [check] calls [run], tries
    the next server and, that failing too, comes back into [run], which
    finds a timer pending; the second timer's [check] raises
    [ircBotException] from [run] before it tries any server.  Two timers
    have been set by then, and the channel map is empty. *)
Theorem gives_up_after_one_retry
    (min_attr max_attr : option Z) (strategy : ExponentialBackoff.t)
    (specs : list ServerSpec) (disconnect : M t unit)
    (j1 j2 j3 j4 j5 : Q) (c : ServerConnection) :
  ExponentialBackoff.init min_attr max_attr = Ok strategy ->
  specs <> [] ->
  let refused := fun _ : nat => false in
  exists s1 s2 s3,
    _connect refused j1 c (new strategy specs) = Some (Ok tt, s1) /\
    check disconnect refused j2 j3 c s1 = Some (Ok tt, s2) /\
    check disconnect refused j4 j5 c s2 = Some (Reconnect.exhausted, s3) /\
    map Some (connect_log s3)
    = [specs !! 0%nat; specs !! (1 mod length specs)%nat] /\
    timers s3 = 2%nat /\
    SingleServerIRCBot.channels (bot s3) = ∅.
Proof.
  intros Hinit Hspecs refused.
  destruct (init_asserts _ _ _ Hinit) as (_ & Hflag & Hcount).
  destruct strategy as [mn mx flag n]. simpl in Hflag, Hcount. subst flag n.
  destruct specs as [| sp rest]; [congruence |]. clear Hspecs Hinit.
  destruct rest as [| sp' rest].
  - eexists. eexists. eexists.
    split; [cbv -[ExponentialBackoff.interval]; reflexivity |].
    split; [cbv -[ExponentialBackoff.interval]; reflexivity |].
    split; [cbv -[ExponentialBackoff.interval]; reflexivity |].
    split; [reflexivity |]. split; reflexivity.
  - eexists. eexists. eexists.
    split; [cbv -[ExponentialBackoff.interval]; reflexivity |].
    split; [cbv -[ExponentialBackoff.interval]; reflexivity |].
    split; [cbv -[ExponentialBackoff.interval]; reflexivity |].
    split; [| split; reflexivity].
    cbn [length]. rewrite Nat.mod_small by lia. reflexivity.
Qed.

Lemma gives_up_after_one_retry_witness :
  let specs := [{| host := "irc.example.org"; port := 6667; password := "" |}] in
  let refused := fun _ : nat => false in
  exists s1 s2 s3,
    _connect refused (1 # 2) Sample.connection
             (new ExponentialBackoff.fresh specs) = Some (Ok tt, s1) /\
    check (fun s => (Ok tt, s)) refused (1 # 2) (1 # 2) Sample.connection s1
    = Some (Ok tt, s2) /\
    check (fun s => (Ok tt, s)) refused (1 # 2) (1 # 2) Sample.connection s2
    = Some (Reconnect.exhausted, s3) /\
    map Some (connect_log s3)
    = [specs !! 0%nat; specs !! (1 mod length specs)%nat] /\
    timers s3 = 2%nat /\
    SingleServerIRCBot.channels (bot s3) = ∅.
Proof.
  exact (gives_up_after_one_retry None None ExponentialBackoff.fresh
           [{| host := "irc.example.org"; port := 6667; password := "" |}]
           (fun s => (Ok tt, s)) (1 # 2) (1 # 2) (1 # 2) (1 # 2) (1 # 2)
           Sample.connection eq_refl ltac:(discriminate)).
Defined.

End session_properties.

(** ** The listener's loop *)

Section listener_loop_facts.
Import Listener.

Lemma handle_all_app (a b : list urbit_bot.Message) (l : urbit_bot.t) :
  handle_all (a ++ b) l = handle_all b (handle_all a l).
Proof. unfold handle_all. apply foldl_app. Qed.

Lemma start_without_client (script : list Call) (self : t) :
  urbit_client.client (client self) = None ->
  start script self = (Raise (AttributeError "listen"), self).
Proof. intros H. destruct script; simpl; rewrite H; reflexivity. Qed.

(** Calls that return keep the loop going. *)
Lemma start_returns (pre : list Call) :
  Forall (fun call => ending call = Returns) pre ->
  forall (rest : list Call) (self : t) (q : urbit_client.Quinnat),
    urbit_client.client (client self) = Some q ->
    start (pre ++ rest) self =
    start rest {| client := client self;
                  listener := handle_all (all_heard pre) (listener self) |}.
Proof.
  induction 1 as [| call pre Hend _ IH]; intros rest self q Hq.
  - simpl. destruct self. reflexivity.
  - cbn [app start]. rewrite Hq, Hend.
    rewrite (IH rest _ q) by exact Hq.
    unfold all_heard. cbn [map concat client listener].
    rewrite handle_all_app. reflexivity.
Qed.

End listener_loop_facts.

Section listener_loop_properties.
Import Listener.

(** X18.  The listener's loop does not survive a decode error: when a
    call of [listen] raises [UnicodeDecodeError] after calls that
    returned, the messages heard up to then have been handled, the
    reconnect leaves [client] at [None], and the next round of the loop
    raises [AttributeError]; whatever [listen] would have delivered
    afterwards is never heard.  As long as every call returns the loop
    goes on. *)
Theorem listener_stops_at_decode_error
    (pre post : list Call) (call : Call) (self : t)
    (q : urbit_client.Quinnat) :
  Forall (fun call => ending call = Returns) pre ->
  ending call = Decode ->
  urbit_client.client (client self) = Some q ->
  fst (start (pre ++ call :: post) self) = Raise (AttributeError "listen") /\
  urbit_client.client (client (snd (start (pre ++ call :: post) self)))
  = None /\
  listener (snd (start (pre ++ call :: post) self))
  = handle_all (all_heard (pre ++ [call])) (listener self) /\
  fst (start pre self) = Ok tt.
Proof.
  intros Hpre Hend Hq.
  assert (Hgoes : fst (start pre self) = Ok tt).
  { pose proof (start_returns pre Hpre [] self q Hq) as H0.
    rewrite app_nil_r in H0. rewrite H0. cbn [start client]. rewrite Hq.
    reflexivity. }
  rewrite (start_returns pre Hpre (call :: post) self q Hq).
  cbn [start client listener]. rewrite Hq, Hend.
  unfold urbit_client.reconnect, bind, urbit_client.client_ship_delete,
    urbit_client.connect, modify, urbit_client.set_client.
  rewrite Hq. cbn [urbit_client.client urbit_client.created
    urbit_client.deleted urbit_client.posted urbit_client.post_calls
    urbit_client.decode_fails].
  rewrite start_without_client by reflexivity.
  cbn [fst snd client listener urbit_client.client].
  split; [reflexivity |]. split; [reflexivity |]. split; [| exact Hgoes].
  unfold all_heard. rewrite map_app, concat_app. cbn [map concat].
  rewrite app_nil_r, handle_all_app. reflexivity.
Qed.

Lemma listener_stops_at_decode_error_witness :
  let self := {| client := urbit_client.new Sample.never_fails;
                 listener := Sample.listener |} in
  let ok := {| heard := [Sample.urbit_message]; ending := Returns |} in
  let bad := {| heard := [Sample.urbit_message]; ending := Decode |} in
  fst (start ([ok] ++ bad :: [ok]) self) = Raise (AttributeError "listen") /\
  urbit_client.client (client (snd (start ([ok] ++ bad :: [ok]) self)))
  = None /\
  listener (snd (start ([ok] ++ bad :: [ok]) self))
  = handle_all (all_heard ([ok] ++ [bad])) (listener self) /\
  fst (start [ok] self) = Ok tt.
Proof.
  apply (listener_stops_at_decode_error
           [{| heard := [Sample.urbit_message]; ending := Returns |}]
           [{| heard := [Sample.urbit_message]; ending := Returns |}]
           {| heard := [Sample.urbit_message]; ending := Decode |}
           {| client := urbit_client.new Sample.never_fails;
              listener := Sample.listener |}
           {| urbit_client.session := 0 |}).
  - repeat constructor.
  - reflexivity.
  - reflexivity.
Defined.

End listener_loop_properties.

(** ** The text that is relayed *)

Section attribution_properties.
Import BridgeIrcBot.

Lemma str_before_first (c : ascii) (nick rest : string) :
  c ∉ list_ascii_of_string nick ->
  str_before c (nick ++ String c rest) = nick.
Proof.
  induction nick as [| a nick IH]; simpl; intros Hc.
  - rewrite Ascii.eqb_refl. reflexivity.
  - apply not_elem_of_cons in Hc as [Hne Hc].
    destruct (Ascii.eqb_spec a c) as [-> | _]; [congruence |].
    rewrite IH by exact Hc. reflexivity.
Qed.

Lemma str_before_absent (c : ascii) (s : string) :
  c ∉ list_ascii_of_string s -> str_before c s = s.
Proof.
  induction s as [| a s IH]; simpl; intros Hc; [reflexivity |].
  apply not_elem_of_cons in Hc as [Hne Hc].
  destruct (Ascii.eqb_spec a c) as [-> | _]; [congruence |].
  rewrite IH by exact Hc. reflexivity.
Qed.

(** X19.  What the bridge posts for a public message from
    [nick!user@host] is the text ["nick: text"], [nick] being the source
    up to its first ["!"] and [text] the message as it came; a source
    without ["!"] is used whole.  This holds for each matching pairing,
    on a live client on which [post_message] does not fail to decode. *)
Theorem relayed_text_names_the_sender
    (c : ServerConnection) (e : Event) (self : t)
    (q : urbit_client.Quinnat) (nick userhost text : string) :
  "!"%char ∉ list_ascii_of_string nick ->
  source e = nick ++ String "!" userhost \/ source e = nick ->
  arguments e !! 0%nat = Some text ->
  urbit_client.client (urbit self) = Some q ->
  (forall n, urbit_client.decode_fails (urbit self) n = false) ->
  on_pubmsg c e self =
  (Ok tt,
   set_urbit
     (urbit_client.delivered (urbit self)
        (map (fun p => (resource_ship p, urbit_channel p,
                        (nick ++ ": " ++ text)%string))
             (matching self e)))
     self).
Proof.
  intros Hnick Hsource Harg Hclient Hfails.
  rewrite on_pubmsg_unfold.
  rewrite (relay_all e text q _ Harg self Hclient Hfails).
  do 3 f_equal. unfold relayed, relay_text.
  replace (str_before "!" (source e)) with nick; [reflexivity |].
  destruct Hsource as [-> | ->]; symmetry;
    [apply str_before_first | apply str_before_absent]; exact Hnick.
Qed.

Lemma relayed_text_names_the_sender_witness :
  on_pubmsg Sample.connection
            (Sample.pubmsg "Alice!a@host" "#dev" "hi: there!")
            (Sample.bridge Sample.never_fails) =
  (Ok tt,
   set_urbit
     (urbit_client.delivered (urbit (Sample.bridge Sample.never_fails))
        (map (fun p => (resource_ship p, urbit_channel p,
                        ("Alice" ++ ": " ++ "hi: there!")%string))
             (matching (Sample.bridge Sample.never_fails)
                       (Sample.pubmsg "Alice!a@host" "#dev" "hi: there!"))))
     (Sample.bridge Sample.never_fails)).
Proof.
  apply (relayed_text_names_the_sender Sample.connection
           (Sample.pubmsg "Alice!a@host" "#dev" "hi: there!")
           (Sample.bridge Sample.never_fails)
           {| urbit_client.session := 0 |} "Alice" "a@host" "hi: there!").
  - intros H. repeat (apply elem_of_cons in H as [H | H]; [discriminate |]).
    apply elem_of_nil in H. exact H.
  - left. reflexivity.
  - reflexivity.
  - reflexivity.
  - intros n. reflexivity.
Defined.

End attribution_properties.

(** ** The relay and the pairings *)

Section pairing_properties.

(** X20.  A public message on a channel with no pairing leaves the
    bridge bot as it is and raises nothing: [post_message] is not
    called.  With a live client and no decode failure, a public
    message is posted once for every pairing of its channel, in the
    order of the configuration, and for no other pairing.  In the
    other direction the listener enqueues a message exactly for the
    pairings that match both its host ship and its resource name. *)
Theorem relay_follows_pairings
    (c : ServerConnection) (e : Event) (self : BridgeIrcBot.t)
    (message : urbit_bot.Message) (listener : urbit_bot.t) :
  (BridgeIrcBot.matching self e = [] ->
   BridgeIrcBot.on_pubmsg c e self = (Ok tt, self)) /\
  (forall (q : urbit_client.Quinnat) (text : string),
      urbit_client.client (BridgeIrcBot.urbit self) = Some q ->
      (forall n,
          urbit_client.decode_fails (BridgeIrcBot.urbit self) n = false) ->
      arguments e !! 0%nat = Some text ->
      BridgeIrcBot.on_pubmsg c e self =
      (Ok tt,
       BridgeIrcBot.set_urbit
         (urbit_client.delivered
            (BridgeIrcBot.urbit self)
            (map (BridgeIrcBot.relayed e text)
                 (filter (fun p => irc_channel p = target e)
                         (BridgeIrcBot.instance_channels self))))
         self)) /\
  urbit_bot.urbit_message_handler message listener =
  (Ok tt,
   {| urbit_bot.instance_channels := urbit_bot.instance_channels listener;
      urbit_bot.queue :=
        urbit_bot.queue listener ++
        map (urbit_bot.queued message)
            (filter (urbit_bot.paired message)
                    (urbit_bot.instance_channels listener)) |}).
Proof.
  split; [| split].
  - intros Hnone. rewrite on_pubmsg_unfold, Hnone. reflexivity.
  - intros q text Hc Hf Harg. rewrite on_pubmsg_unfold.
    apply (relay_all e text q _ Harg self Hc Hf).
  - rewrite urbit_message_handler_unfold. destruct listener as [ic qu].
    apply enqueue_paired.
Qed.

Lemma relay_follows_pairings_witness :
  BridgeIrcBot.on_pubmsg Sample.connection
    (Sample.pubmsg "Alice!a@host" "#nowhere" "hi")
    (Sample.bridge Sample.never_fails)
  = (Ok tt, Sample.bridge Sample.never_fails) /\
  urbit_client.posted
    (BridgeIrcBot.urbit
       (snd (BridgeIrcBot.on_pubmsg Sample.connection
               (Sample.pubmsg "Alice!a@host" "#urbit" "hi")
               (Sample.bridge Sample.never_fails))))
  = [("~zod", "general", "Alice: hi"); ("~bus", "general", "Alice: hi")] /\
  urbit_bot.queue
    (snd (urbit_bot.urbit_message_handler Sample.urbit_message
            Sample.listener))
  = [("#urbit", "~sampel: hello")].
Proof.
  split; [| split].
  - apply (relay_follows_pairings Sample.connection
             (Sample.pubmsg "Alice!a@host" "#nowhere" "hi")
             (Sample.bridge Sample.never_fails)
             Sample.urbit_message Sample.listener).
    reflexivity.
  - destruct (relay_follows_pairings Sample.connection
                (Sample.pubmsg "Alice!a@host" "#urbit" "hi")
                (Sample.bridge Sample.never_fails)
                Sample.urbit_message Sample.listener) as (_ & H & _).
    rewrite (H {| urbit_client.session := 0 |} "hi" eq_refl
               (fun _ => eq_refl) eq_refl).
    reflexivity.
  - destruct (relay_follows_pairings Sample.connection
                (Sample.pubmsg "Alice!a@host" "#urbit" "hi")
                (Sample.bridge Sample.never_fails)
                Sample.urbit_message Sample.listener) as (_ & _ & H).
    rewrite H. reflexivity.
Defined.

End pairing_properties.
